(** * uberwriter: the Pandoc source mapper

    A shallow embedding of [uberwriter/pandoc_source_mapper.py] and the
    properties of its tree walker, its text locator and its line
    utilities.

    Python strings are sequences of Unicode code points, and every offset
    the mapper computes counts code points, so a text is a list of code
    points (as [Z]); offsets are Python integers ([Z]), which may be
    negative and then index from the end of the text. *)

From stdpp Require Import base option list gmap strings fin_maps.
From Stdlib Require Import ZArith Lia.

Local Open Scope Z_scope.

(** ** Python strings *)

Abbreviation char := Z (only parsing).
Abbreviation pystr := (list Z) (only parsing).

(** Code points of an ASCII literal, to write texts readably. *)
Definition str (s : string) : pystr :=
  (λ a, Z.of_N (Ascii.N_of_ascii a)) <$> String.list_ascii_of_string s.

Definition len (t : pystr) : Z := Z.of_nat (length t).

(** [str.isspace] on one character: CPython's [Py_UNICODE_ISSPACE]. The
    regular-expression class [\s] of a [str] pattern is the same set. *)
Definition isspace (c : char) : bool :=
  ((9 <=? c) && (c <=? 13)) || ((28 <=? c) && (c <=? 32))
  || (c =? 133) || (c =? 160) || (c =? 5760)
  || ((8192 <=? c) && (c <=? 8202))
  || (c =? 8232) || (c =? 8233) || (c =? 8239) || (c =? 8287) || (c =? 12288).

Definition NL : char := 10.
Definition CR : char := 13.

(** [t[i]]: a negative index counts from the end; [None] is [IndexError]. *)
Definition getitem (t : pystr) (i : Z) : option char :=
  if (i <? - len t) || (len t <=? i) then None
  else if i <? 0 then t !! Z.to_nat (i + len t)
  else t !! Z.to_nat i.

(** Index normalisation of [find], [rfind] and [startswith]
    (CPython's [ADJUST_INDICES]): [start] is not clamped to the length. *)
Definition adjust_start (n s : Z) : Z :=
  if s <? 0 then Z.max (s + n) 0 else s.
Definition adjust_end (n e : Z) : Z :=
  if n <? e then n else if e <? 0 then Z.max (e + n) 0 else e.

(** Index normalisation of a slice [t[a:b]]: both bounds are clamped. *)
Definition clamp (n i : Z) : Z :=
  if i <? 0 then Z.max (i + n) 0 else Z.min i n.

Definition slice (t : pystr) (a b : option Z) : pystr :=
  let n := len t in
  let a' := clamp n (default 0 a) in
  let b' := clamp n (default n b) in
  take (Z.to_nat (b' - a')) (drop (Z.to_nat a') t).

(** [sub] occurs in [t] at the (normalised) position [i]. *)
Definition occurs_at (t sub : pystr) (i : Z) : bool :=
  bool_decide (take (length sub) (drop (Z.to_nat i) t) = sub).

(** Candidate positions of [sub] inside [t[start:end]], in increasing order. *)
Definition candidates (t sub : pystr) (start end_ : option Z) : list Z :=
  let n := len t in
  let s := adjust_start n (default 0 start) in
  let e := adjust_end n (default n end_) in
  seqZ s (e - len sub - s + 1).

(** [t.find(sub, start, end)] and [t.rfind(sub, start, end)]. *)
Definition py_find (t sub : pystr) (start end_ : option Z) : Z :=
  default (-1) (list_find (occurs_at t sub) (candidates t sub start end_) ≫= λ p, Some p.2).

Definition py_rfind (t sub : pystr) (start end_ : option Z) : Z :=
  default (-1)
    (list_find (occurs_at t sub) (reverse (candidates t sub start end_)) ≫= λ p, Some p.2).

(** [t.startswith(prefix, start)]. *)
Definition startswith (t prefix : pystr) (start : Z) : bool :=
  let n := len t in
  let s := adjust_start n start in
  if n - len prefix <? s then false else occurs_at t prefix s.

(** [s.split()]: the maximal runs of non-whitespace characters. *)
Fixpoint split_go (cur : pystr) (s : pystr) : list pystr :=
  match s with
  | [] => if bool_decide (cur = []) then [] else [reverse cur]
  | c :: s' =>
      if isspace c
      then (if bool_decide (cur = []) then [] else [reverse cur]) ++ split_go [] s'
      else split_go (c :: cur) s'
  end.
Definition split (s : pystr) : list pystr := split_go [] s.

(** [sub in t] for a one-character [sub]. *)
Definition contains (t : pystr) (c : char) : bool := existsb (Z.eqb c) t.

(** ** The escape table

    [escape_table] in insertion order, which is the order in which
    [__find_unescaped] iterates over its keys. Every value is one
    character long. *)

Definition escape_table : list (pystr * char) :=
  [ (str "\\", 92); (str "\`", 96); (str "\*", 42); (str "\_", 95);
    (str "\{", 123); (str "\}", 125); (str "\[", 91); (str "\]", 93);
    (str "\(", 40); (str "\)", 41); (str "\#", 35); (str "\+", 43);
    (str "\-", 45); (str "\.", 46); (str "\!", 33); (str "\~", 126);
    ([92; 34], 34); (str "\<", 60); (str "\>", 62); ([92; 10], 10);
    (str " ", 160);
    (str "&amp;", 38); (str "&lt;", 60); (str "&gt;", 62); (str "&nbsp;", 32);
    (str "&iexcl;", 161); (str "&cent;", 162); (str "&pound;", 163);
    (str "&curren;", 164); (str "&yen;", 165); (str "&brvbar;", 166);
    (str "&sect;", 167); (str "&uml;", 168); (str "&copy;", 169);
    (str "&ordf;", 170); (str "&laquo;", 171); (str "&not;", 172);
    (str "&shy;", 173); (str "&reg;", 174); (str "&macr;", 175);
    (str "&deg;", 176); (str "&plusmn;", 177); (str "&sup2;", 178);
    (str "&sup3;", 179); (str "&acute;", 180); (str "&micro;", 181);
    (str "&para;", 182); (str "&middot;", 183); (str "&cedil;", 184);
    (str "&sup1;", 185); (str "&ordm;", 186); (str "&raquo;", 187);
    (str "&frac14;", 188); (str "&frac12;", 189); (str "&frac34;", 190);
    (str "&iquest;", 191); (str "&times;", 215); (str "&divide;", 247);
    (str "&ETH;", 208); (str "&eth;", 240); (str "&THORN;", 222);
    (str "&thorn;", 254); (str "&AElig;", 198); (str "&aelig;", 230);
    (str "&OElig;", 338); (str "&oelig;", 339); (str "&Aring;", 197);
    (str "&Oslash;", 216); (str "&Ccedil;", 199); (str "&ccedil;", 231);
    (str "&szlig;", 223); (str "&Ntilde;", 209); (str "&ntilde;", 241) ].

Definition escape_table_keys : list pystr := fst <$> escape_table.
Definition escape_table_values : list char := snd <$> escape_table.

(** ** The text locator and the line utilities

    [text] is [self.text], fixed for the lifetime of a mapper. *)

Section Locator.

Variable text : pystr.

(** [__find(sub, start, end)] *)
Definition __find (sub : pystr) (start end_ : option Z) : Z * Z :=
  let start := py_find text sub start end_ in
  if 0 <=? start then (start, start + len sub) else (start, start).

(** The state of the scanning loop of [__find_unescaped]: the source
    position [i], the target position [index] and the tentative start of
    the match, [-1] when there is none. *)
Record fu_state := FuState { fu_i : Z; fu_index : Z; fu_start_match : Z }.

(** The character comparison [a[i] == b[j]]; both indices are in range
    wherever the loop evaluates it. *)
Definition char_eq (a : pystr) (i : Z) (b : pystr) (j : Z) : bool :=
  match getitem a i, getitem b j with
  | Some x, Some y => x =? y
  | _, _ => false
  end.

(** [increment], as the first half of the loop body computes it. *)
Definition fu_increment (sub : pystr) (st : fu_state) : Z :=
  let i := fu_i st in
  if char_eq text i sub (fu_index st) then 1
  else if negb (fu_start_match st =? -1) && char_eq text i [CR] 0 then 0
  else if bool_decide (getitem sub (fu_index st) ∈ Some <$> escape_table_values) then
    match List.find (λ c, startswith (slice text (Some i) None) c 0) escape_table_keys with
    | Some c => len c
    | None => -1
    end
  else -1.

(** One iteration of the loop: either the function returns a pair, or the
    loop goes on from a new state. *)
Definition fu_step (sub : pystr) (st : fu_state) : (Z * Z) + fu_state :=
  let i := fu_i st in
  let increment := fu_increment sub st in
  if 0 <? increment then
    let index := fu_index st + 1 in
    let start_match := if fu_start_match st =? -1 then i else fu_start_match st in
    if index =? len sub then inl (start_match, i + increment)
    else inr (FuState (i + Z.max 1 increment) index start_match)
  else if (increment <? 0) && (0 <=? fu_start_match st) then
    inr (FuState (fu_start_match st + Z.max 1 increment) 0 (-1))
  else inr (FuState (i + Z.max 1 increment) (fu_index st) (fu_start_match st)).

(** The [while i < end] loop. The recursion is on a counter that bounds
    the number of iterations left ([fu_measure]); [fu_run_unfold] below
    shows that the counter never runs out. *)
Fixpoint fu_loop (fuel : nat) (sub : pystr) (end_ : Z) (st : fu_state) : Z * Z :=
  match fuel with
  | O => (-1, -1)
  | S fuel =>
      if fu_i st <? end_ then
        match fu_step sub st with
        | inl r => r
        | inr st' => fu_loop fuel sub end_ st'
        end
      else (-1, -1)
  end.

Definition fu_measure (end_ : Z) (st : fu_state) : Z :=
  let s := if fu_start_match st <? 0 then fu_i st else fu_start_match st in
  (end_ - s) * (end_ + 1) + (end_ - fu_i st).

Definition fu_run (sub : pystr) (end_ : Z) (st : fu_state) : Z * Z :=
  fu_loop (S (Z.to_nat (fu_measure end_ st))) sub end_ st.

(** [__find_unescaped(sub, start, end)] *)
Definition __find_unescaped (sub : pystr) (start end_ : option Z) : Z * Z :=
  let start := default 0 start in
  let end_ := default (len text) end_ in
  if (end_ <? start) || (start <? 0) || (len text <? end_) then (-1, -1)
  else if bool_decide (sub = []) then (start, start)
  else fu_run sub end_ (FuState start 0 (-1)).

(** [__get_line(index)] *)
Definition __get_line (index : Z) : Z * Z :=
  let start_line := py_rfind text [NL] (Some 0) (Some index) + 1 in
  let end_line := py_find text [NL] (Some start_line) None in
  let end_line := if end_line <? 0 then len text else end_line in
  (start_line, end_line).

(** [__get_line_before(index)] *)
Definition __get_line_before (index : Z) : Z * Z :=
  let index := Z.max ((__get_line index).1 - 1) 0 in
  __get_line index.

(** [__get_line_after(index)] *)
Definition __get_line_after (index : Z) : Z * Z :=
  let index := Z.min ((__get_line index).2 + 1) (len text - 1) in
  __get_line index.

End Locator.

(** ** The data model *)

(** The values the mapper stores in [extras]: offsets and levels, strings,
    and for [Cite] the list of the citations' [start]/[end] pairs. *)
Inductive value :=
  | VInt (z : Z)
  | VStr (s : pystr)
  | VSpans (l : list (Z * Z)).

#[global] Instance value_eq_dec : EqDecision value.
Proof. solve_decision. Defined.

(** The dataclass [Result]. *)
Record Result := mkResult {
  res_type : string;
  res_start : Z;
  res_end : Z;
  res_extras : gmap string value;
}.

(** Pandoc's [Attr]: identifier, classes, key-value pairs. *)
Record attr := mkAttr {
  identifier : pystr;
  classes : list pystr;
  attributes : list (pystr * pystr);
}.

Inductive math_type := DisplayMath | InlineMath.

(** One citation of a [Cite]: [citationId] and the tag of [citationMode]. *)
Record citation := mkCitation {
  citationId : pystr;
  citationMode : string;
}.

(** The entries of Pandoc 2's JSON tree, [{"t": tag, "c": contents}], with
    the contents shaped as the argument functions of the dispatch table
    take them apart (components that no walker reads, such as a list's
    attributes or a table's alignments, are left out). Blocks and inlines
    share one type, as the mapper dispatches on both through one table.
    [Unknown t] is an entry with any other tag [t]. *)
#[warnings="-register-all"] Inductive node :=
  | Plain (entries : list node)
  | Para (entries : list node)
  | LineBlock (entries_nested : list (list node))
  | CodeBlock (a : attr) (string_ : pystr)
  | RawBlock (format : pystr) (string_ : pystr)
  | BlockQuote (entries : list node)
  | OrderedList (entries_nested : list (list node))
  | BulletList (entries_nested : list (list node))
  | DefinitionList (entries_to_entries_nested : list (list node * list (list node)))
  | Header (level : Z) (a : attr) (entries : list node)
  | HorizontalRule
  | Table (caption : list node) (header : list (list node))
          (rows : list (list (list node)))
  | Div (a : attr) (entries : list node)
  | Null
  | Str (string_ : pystr)
  | Emph (entries : list node)
  | Strong (entries : list node)
  | Strikeout (entries : list node)
  | Superscript (entries : list node)
  | Subscript (entries : list node)
  | SmallCaps (entries : list node)
  | Quoted (entries : list node)
  | Cite (citations : list citation) (bibliography_entries : list node)
  | Code (a : attr) (string_ : pystr)
  | Space
  | SoftBreak
  | LineBreak
  | Math (mt : math_type) (string_ : pystr)
  | RawInline (format : pystr) (string_ : pystr)
  | Link (a : attr) (entries : list node) (target : pystr * pystr)
  | Image (a : attr) (entries : list node) (target : pystr * pystr)
  | Note (entries : list node)
  | Span (a : attr) (entries : list node)
  | Unknown (t : string).

(** [entry["t"]] *)
Definition node_tag (entry : node) : string :=
  match entry with
  | Plain _ => "Plain" | Para _ => "Para" | LineBlock _ => "LineBlock"
  | CodeBlock _ _ => "CodeBlock" | RawBlock _ _ => "RawBlock"
  | BlockQuote _ => "BlockQuote" | OrderedList _ => "OrderedList"
  | BulletList _ => "BulletList" | DefinitionList _ => "DefinitionList"
  | Header _ _ _ => "Header" | HorizontalRule => "HorizontalRule"
  | Table _ _ _ => "Table" | Div _ _ => "Div" | Null => "Null"
  | Str _ => "Str" | Emph _ => "Emph" | Strong _ => "Strong"
  | Strikeout _ => "Strikeout" | Superscript _ => "Superscript"
  | Subscript _ => "Subscript" | SmallCaps _ => "SmallCaps"
  | Quoted _ => "Quoted" | Cite _ _ => "Cite" | Code _ _ => "Code"
  | Space => "Space" | SoftBreak => "SoftBreak" | LineBreak => "LineBreak"
  | Math _ _ => "Math" | RawInline _ _ => "RawInline" | Link _ _ _ => "Link"
  | Image _ _ _ => "Image" | Note _ => "Note" | Span _ _ => "Span"
  | Unknown t => t
  end%string.

(** The keys of [self.block_types] and [self.inline_types]. *)
Definition block_types : list string :=
  [ "Plain"; "Para"; "LineBlock"; "CodeBlock"; "RawBlock"; "BlockQuote";
    "OrderedList"; "BulletList"; "DefinitionList"; "Header";
    "HorizontalRule"; "Table"; "Div"; "Null" ]%string.
Definition inline_types : list string :=
  [ "Str"; "Emph"; "Strong"; "Strikeout"; "Superscript"; "Subscript";
    "SmallCaps"; "Quoted"; "Cite"; "Code"; "Space"; "SoftBreak"; "LineBreak";
    "Math"; "RawInline"; "Link"; "Image"; "Note"; "Span" ]%string.
Definition types : list string := block_types ++ inline_types.

Definition non_spaced_types : list string :=
  [ "Str"; "Emph"; "Strong"; "Strikeout"; "Superscript"; "Subscript";
    "SmallCaps"; "Quoted"; "Cite"; "Code"; "Math"; "RawInline"; "Link";
    "Image"; "Note"; "Span" ]%string.

Definition paragraph_types : list string :=
  [ "Para"; "LineBlock"; "CodeBlock"; "BlockQuote"; "OrderedList";
    "BulletList"; "DefinitionList"; "Header"; "HorizontalRule"; "Table";
    "Div" ]%string.

Definition smallcaps_delims : list (pystr * pystr) :=
  [ (str "[", str "]{.smallcaps}"); (str "<span ", str "</span>") ].

Definition citation_delims : char * char := (91, 93).

Definition math_delims (mt : math_type) : pystr :=
  match mt with DisplayMath => str "$$" | InlineMath => str "$" end.

(** ** Effects: the result list, warnings and exceptions *)

Inductive warning :=
  | UnknownType (t : string)
  | InvalidResult (r : Result).

Inductive exn := IndexError | TypeError.

(** The mutable part of a mapper: [self.results] and the warnings emitted
    so far, both in order of emission. *)
Record mapper_state := mkState {
  results : list Result;
  warnings : list warning;
}.

Inductive outcome (A : Type) :=
  | Done (a : A) (s : mapper_state)
  | Raised (e : exn).
Arguments Done {A} a s.
Arguments Raised {A} e.

Definition M (A : Type) : Type := mapper_state → outcome A.

#[global] Instance M_ret : MRet M := λ A a s, Done a s.
#[global] Instance M_bind : MBind M := λ A B f m s,
  match m s with
  | Done a s' => f a s'
  | Raised e => Raised e
  end.

(** [warnings.warn(...)] *)
Definition warn (w : warning) : M unit :=
  λ s, Done () (mkState (results s) (warnings s ++ [w])).

(** [self.results.append(result)] *)
Definition append_result (r : Result) : M unit :=
  λ s, Done () (mkState (results s ++ [r]) (warnings s)).

(** A computation on the text alone; [None] is an [IndexError]. *)
Definition lift {A} (o : option A) : M A :=
  λ s, match o with Some a => Done a s | None => Raised IndexError end.

(** ** Regular expressions

    The four patterns of the class, each translated by hand into the
    matcher the backtracking engine of [re] computes for it. *)

(** [\s{0,3}] followed by [rest]: the greedy quantifier takes three
    whitespace characters, then two, one, none, until [rest] matches. *)
Definition re_indent (rest : pystr → bool) (s : pystr) : bool :=
  existsb (λ k, bool_decide (length (take k s) = k)
                && forallb isspace (take k s) && rest (drop k s))
          [3; 2; 1; 0]%nat.

Fixpoint drop_while (p : char → bool) (s : pystr) : pystr :=
  match s with
  | c :: s' => if p c then drop_while p s' else s
  | [] => []
  end.

Fixpoint take_while (p : char → bool) (s : pystr) : pystr :=
  match s with
  | c :: s' => if p c then c :: take_while p s' else []
  | [] => []
  end.

(** [code_block_delim = ^\s{0,3}[`~]{3,}], with [match]. *)
Definition is_fence (c : char) : bool := (c =? 96) || (c =? 126).
Definition code_block_delim (s : pystr) : bool :=
  re_indent (λ r, match r with
                  | a :: b :: c :: _ => is_fence a && is_fence b && is_fence c
                  | _ => false
                  end) s.

(** [x+\s*$] for a character class [x]: a non-empty run of [x], the
    longest one, and only whitespace after it. *)
Definition re_run_to_end (x : char → bool) (r : pystr) : bool :=
  match r with
  | c :: _ => x c && forallb isspace (drop_while x r)
  | [] => false
  end.

(** [header_setext_delim = ^\s{0,3}(?:-+|=+)\s*$], with [match]. *)
Definition header_setext_delim (s : pystr) : bool :=
  re_indent (λ r, re_run_to_end (Z.eqb 45) r || re_run_to_end (Z.eqb 61) r) s.

(** [table_delim = ^\s{0,3}(?:[-\s]+|[-+:]+)\s*$], with [match]. *)
Definition table_delim (s : pystr) : bool :=
  re_indent (λ r, (negb (bool_decide (r = []))
                   && forallb (λ c, (c =? 45) || isspace c) r)
                  || re_run_to_end (λ c, (c =? 45) || (c =? 43) || (c =? 58)) r) s.

(** [footnote_identifier = \[\^[^\s]+\]], with [match]: the text of the
    match. [[^\s]+] takes the whole run of non-whitespace characters and
    gives characters back until a closing bracket follows. *)
Definition footnote_identifier (s : pystr) : option pystr :=
  match s with
  | 91 :: 94 :: r =>
      let run := take_while (λ c, negb (isspace c)) r in
      (λ j, [91; 94] ++ take (S j) run) <$>
        List.find (λ j, bool_decide (run !! j = Some 93))
                  (reverse (seq 1 (length run - 1)))
  | _ => None
  end.

(** ** The tree walker *)

Section Walker.

Variable text : pystr.

(** *** Scanning loops

    [while guard(j) and p(text[j + off]): j += step], the shape of every
    character loop of the walkers ([step] is 1 or -1). The index moves one
    way, so the loop ends or leaves the text, where indexing raises; the
    counter bounds the iterations, and [scan_unfold] shows that it never
    runs out. *)
Fixpoint scan_loop (fuel : nat) (guard : Z → bool) (p : char → bool)
    (off step : Z) (j : Z) : option Z :=
  match fuel with
  | O => None
  | S fuel =>
      if guard j then
        c ← getitem text (j + off);
        if p c then scan_loop fuel guard p off step (j + step) else Some j
      else Some j
  end.

Definition scan (guard : Z → bool) (p : char → bool) (off step : Z) (j : Z) : option Z :=
  scan_loop (S (Z.to_nat (2 * len text + 1))) guard p off step j.

Definition always (j : Z) : bool := true.

(** [while self.text[start].isspace(): start += 1] *)
Definition skip_spaces_forward (start : Z) : option Z :=
  scan always isspace 0 1 start.

(** [while self.text[end - 1].isspace(): end -= 1] *)
Definition skip_spaces_backward (end_ : Z) : option Z :=
  scan always isspace (-1) (-1) end_.

(** *** The unordered-result predicate *)

(** [__is_last_result_ordered(results)]; [results[-1]] raises on an empty
    list. *)
Definition __is_last_result_ordered (results : list Result) : option bool :=
  result ← last results;
  Some (negb (
    (String.eqb (res_type result) "Div"
       && bool_decide (res_extras result !! "identifier"%string = Some (VStr (str "refs"))))
    || (String.eqb (res_type result) "Note"
       && bool_decide (res_extras result !! "type"%string = Some (VStr (str "footnote"))))
    || existsb (λ prev, String.eqb (res_type prev) "SoftBreak"
                        && negb (contains (slice text (Some (res_start prev))
                                                      (Some (res_end prev))) NL))
               (removelast results))).

(** *** Combinators, over the walker [rec] of one entry *)

Section Combinators.

Variable rec : Z → node → M (option Result).

(** The loop of [walk_multiple]: [i] counts the entries, [results] is the
    local list of the results obtained so far. *)
Fixpoint walk_multiple_loop (entries : list node) (i : Z) (start end_ : Z)
    (results : list Result) : M (Z * Z) :=
  match entries with
  | [] => mret (start, end_)
  | entry :: entries =>
      result ← rec end_ entry;
      match result with
      | Some result =>
          let results := results ++ [result] in
          ordered ← lift (__is_last_result_ordered results);
          if ordered : bool
          then walk_multiple_loop entries (i + 1)
                 (if i =? 0 then res_start result else start) (res_end result) results
          else walk_multiple_loop entries (i + 1) start end_ results
      | None => walk_multiple_loop entries (i + 1) start end_ results
      end
  end.

(** [walk_multiple(index, entries, padding)] *)
Definition walk_multiple (index : Z) (entries : list node) (padding : Z)
    : M (Z * Z * gmap string value) :=
  '(start, end_) ← walk_multiple_loop entries 0 index index [];
  let extras : gmap string value :=
    if padding =? 0 then ∅
    else {[ "content_start"%string := VInt start; "content_end"%string := VInt end_ ]} in
  mret (start - padding, end_ + padding, extras).

(** The loop shared by the nested combinators: [inner] walks one element
    from the cursor [end_], and the first element gives the start. *)
Fixpoint walk_nested_loop {A} (inner : Z → A → M (Z * Z)) (l : list A)
    (i : Z) (start end_ : Z) : M (Z * Z) :=
  match l with
  | [] => mret (start, end_)
  | x :: l =>
      '(s, end_) ← inner end_ x;
      walk_nested_loop inner l (i + 1) (if i =? 0 then s else start) end_
  end.

(** [[type]] nested [n] more times: [nested 1] is [[[type]]]. *)
Fixpoint nested (n : nat) : Type :=
  match n with
  | O => list node
  | S n => list (nested n)
  end.

(** [walk_multiple_nested(index, entries_nested, nesting)] for
    [nesting = S n]: after [nesting -= 1], the elements are walked by the
    function itself when [nesting > 0] and by [walk_multiple] otherwise. *)
Fixpoint walk_multiple_nested (n : nat) (index : Z)
    : nested (S n) → M (Z * Z * gmap string value) :=
  match n with
  | O => λ entries_nested,
      '(start, end_) ← walk_nested_loop
         (λ end_ entries, '(s, e, _) ← walk_multiple end_ entries 0; mret (s, e))
         entries_nested 0 index index;
      mret (start, end_, ∅)
  | S n' => λ entries_nested,
      '(start, end_) ← walk_nested_loop
         (λ end_ entries, '(s, e, _) ← walk_multiple_nested n' end_ entries; mret (s, e))
         entries_nested 0 index index;
      mret (start, end_, ∅)
  end.

(** [walk_multiple_to_multiple_nested(index, entries_to_entries_nested)] *)
Fixpoint walk_pairs_loop (l : list (list node * list (list node)))
    (i : Z) (start end_ : Z) : M (Z * Z) :=
  match l with
  | [] => mret (start, end_)
  | (entry, entries_nested) :: l =>
      '(s, end_, _) ← walk_multiple end_ entry 0;
      let start := if i =? 0 then s else start in
      '(_, end_, _) ← walk_multiple_nested 0 end_ entries_nested;
      walk_pairs_loop l (i + 1) start end_
  end.

Definition walk_multiple_to_multiple_nested (index : Z)
    (entries_to_entries_nested : list (list node * list (list node)))
    : M (Z * Z * gmap string value) :=
  '(start, end_) ← walk_pairs_loop entries_to_entries_nested 0 index index;
  mret (start, end_, ∅).

End Combinators.

(** *** Walkers of the text alone *)

(** The token loop of [walk_code_block] and of [walk_code]: each token
    is searched from the end of the one before, the first gives the
    start. *)
Fixpoint find_tokens (lines : list pystr) (i : Z) (start end_ : Z) : Z * Z :=
  match lines with
  | [] => (start, end_)
  | line :: lines =>
      let '(s, end_) := __find text line (Some end_) None in
      find_tokens lines (i + 1) (if i =? 0 then s else start) end_
  end.

(** [walk_code_block(index, _attr, string)] *)
Definition walk_code_block (index : Z) (string_ : pystr) : Z * Z * gmap string value :=
  let '(content_start, content_end) := find_tokens (split string_) 0 index index in
  let '(line_before_start, line_before_end) := __get_line_before text content_start in
  let '(line_after_start, line_after_end) := __get_line_after text content_end in
  let '(start, end_) :=
    if code_block_delim (slice text (Some line_before_start) (Some line_before_end))
       && code_block_delim (slice text (Some line_after_start) (Some line_after_end))
    then (line_before_start, line_after_end)
    else (content_start, content_end) in
  (start, end_,
   {[ "content_start"%string := VInt content_start;
      "content_end"%string := VInt content_end ]}).

(** [walk_horizontal_rule(index)] *)
Definition walk_horizontal_rule (index : Z) : option (Z * Z * gmap string value) :=
  index ← skip_spaces_forward index;
  let '(start, end_) := __get_line text index in
  start ← skip_spaces_forward start;
  end_ ← skip_spaces_backward end_;
  Some (start, end_,
        {[ "content_start"%string := VInt start; "content_end"%string := VInt end_ ]}).

(** [walk_str(index, string)] *)
Definition walk_str (index : Z) (string_ : pystr) : Z * Z * gmap string value :=
  let '(start, end_) :=
    if startswith text string_ index then (index, index + len string_)
    else __find_unescaped text string_ (Some index) None in
  (start, end_, ∅).

(** The loop of [walk_cite] over the citations. *)
Fixpoint walk_cite_loop (citations : list citation) (i : Z)
    (start end_ citation_start : Z) (capture_brackets : bool)
    (extras_citations : list (Z * Z)) : Z * Z * bool * list (Z * Z) :=
  match citations with
  | [] => (start, end_, capture_brackets, extras_citations)
  | c :: citations =>
      let '(citation_start, citation_end) :=
        __find text (64 :: citationId c) (Some citation_start) None in
      walk_cite_loop citations (i + 1)
        (if i =? 0 then citation_start else start) citation_end citation_start
        (capture_brackets && negb (String.eqb (citationMode c) "AuthorInText"))
        (extras_citations ++ [(citation_start, citation_end)])
  end.

(** [walk_cite(index, citations, _bibliography_entries)] *)
Definition walk_cite (index : Z) (citations : list citation)
    : option (Z * Z * gmap string value) :=
  let '(start, end_, capture_brackets, extras_citations) :=
    walk_cite_loop citations 0 index index index true [] in
  '(start, end_) ←
    (if negb (start =? end_) && capture_brackets then
       let '(citation_start_delim, citation_end_delim) := citation_delims in
       start ← scan (λ start, 0 <=? start) (λ c, negb (c =? citation_start_delim)) 0 (-1) start;
       end_ ← scan always (λ c, negb (c =? citation_end_delim)) (-1) 1 end_;
       Some (start, end_)
     else Some (start, end_));
  Some (start, end_, {[ "citations"%string := VSpans extras_citations ]}).

(** [walk_code(index, string)] *)
Definition walk_code (index : Z) (string_ : pystr) : Z * Z * gmap string value :=
  let '(start, end_) := find_tokens (split string_) 0 index index in
  (start - 1, end_ + 1,
   {[ "content_start"%string := VInt start; "content_end"%string := VInt end_ ]}).

(** [walk_spaces(index)] *)
Definition walk_spaces (index : Z) : option (Z * Z * gmap string value) :=
  start ← scan always (λ c, negb (isspace c)) 0 1 index;
  end_ ← scan always isspace 0 1 start;
  Some (start, end_, ∅).

(** [walk_math(index, math_type, string)] *)
Definition walk_math (index : Z) (mt : math_type) (string_ : pystr)
    : Z * Z * gmap string value :=
  let '(start, end_) := __find text string_ (Some index) None in
  let padding := len (math_delims mt) in
  (start - padding, end_ + padding,
   {[ "content_start"%string := VInt start; "content_end"%string := VInt end_ ]}).

(** [walk_nothing(index)] *)
Definition walk_nothing (index : Z) : Z * Z * gmap string value :=
  (index, index, ∅).

(** [re.search("^\s{0,3}<identifier>: ", self.text, re.MULTILINE)], the
    start of the match: the first beginning of a line where the pattern
    matches, the identifier being matched literally ([re.escape]). *)
Definition footnote_definition_start (ident : pystr) : option Z :=
  let pattern := ident ++ str ": " in
  List.find (λ p, ((p =? 0) || char_eq text (p - 1) [NL] 0)
                  && re_indent (λ r, bool_decide (take (length pattern) r = pattern))
                               (drop (Z.to_nat p) text))
            (seqZ 0 (len text + 1)).

(** *** Walkers that descend into the tree *)

Section Walkers.

Variable rec : Z → node → M (option Result).

(** [walk_list(index, nested_entries)] *)
Definition walk_list (index : Z) (nested_entries : list (list node))
    : M (Z * Z * gmap string value) :=
  '(start, end_, _) ← walk_multiple_nested rec 0 index nested_entries;
  mret (start, end_,
        {[ "content_start"%string := VInt start; "content_end"%string := VInt end_ ]}).

(** [walk_header(index, level, _attr, entries)] *)
Definition walk_header (index : Z) (level : Z) (entries : list node)
    : M (Z * Z * gmap string value) :=
  '(start, end_, _) ← walk_multiple rec index entries 0;
  let '(line_after_start, line_after_end) := __get_line_after text end_ in
  let end_ :=
    if header_setext_delim (slice text (Some line_after_start) (Some line_after_end))
    then line_after_end else end_ in
  mret (start, end_,
        {[ "level"%string := VInt level;
           "content_start"%string := VInt start; "content_end"%string := VInt end_ ]}).

(** [walk_table(index, caption, _alignment, _column_widths, header, rows)] *)
Definition walk_table (index : Z) (caption : list node)
    (header : list (list node)) (rows : list (list (list node)))
    : M (Z * Z * gmap string value) :=
  let start := index in
  '(header_start, header_end, _) ← walk_multiple_nested rec 0 start header;
  '(rows_start, rows_end, _) ← walk_multiple_nested rec 1 header_end rows;
  '(caption_start, caption_end, _) ← walk_multiple rec start caption 0;
  let start :=
    if negb (header_start =? header_end) && negb (caption_start =? caption_end)
    then Z.min header_start caption_start
    else if negb (header_start =? header_end) then header_start
    else if negb (caption_start =? caption_end) then Z.min caption_start rows_start
    else rows_start in
  let end_ :=
    if negb (caption_start =? caption_end) then Z.max caption_end rows_end
    else rows_end in
  let '(line_before_start, line_before_end) := __get_line_before text start in
  let start :=
    if table_delim (slice text (Some line_before_start) (Some line_before_end))
    then line_before_start else start in
  let '(line_after_start, line_after_end) := __get_line_after text end_ in
  let end_ :=
    if table_delim (slice text (Some line_after_start) (Some line_after_end))
    then line_after_end else end_ in
  let extras : gmap string value :=
    {[ "rows_start"%string := VInt rows_start; "rows_end"%string := VInt rows_end ]} in
  let extras :=
    if negb (header_start =? header_end)
    then <["header_start"%string := VInt header_start]>
           (<["header_end"%string := VInt header_end]> extras)
    else extras in
  let extras :=
    if negb (caption_start =? caption_end)
    then <["caption_start"%string := VInt caption_start]>
           (<["caption_end"%string := VInt caption_end]> extras)
    else extras in
  mret (start, end_, extras).

(** [walk_div(index, attr, entries)] *)
Definition walk_div (index : Z) (a : attr) (entries : list node)
    : M (Z * Z * gmap string value) :=
  '(start, end_, _) ← walk_multiple rec index entries 0;
  let extras : gmap string value :=
    if bool_decide (identifier a = []) then ∅
    else {[ "identifier"%string := VStr (identifier a) ]} in
  mret (start, end_, extras).

(** [walk_small_caps(index, entries)] *)
Definition walk_small_caps (index : Z) (entries : list node)
    : M (Z * Z * gmap string value) :=
  '(start, end_, _) ← walk_multiple rec index entries 0;
  let '(content_start, content_end) := (start, end_) in
  let '(start, end_) :=
    match List.find (λ d, startswith text d.2 end_) smallcaps_delims with
    | Some (smallcaps_start, smallcaps_end) =>
        (py_rfind text smallcaps_start (Some 0) (Some end_), end_ + len smallcaps_end)
    | None => (start, end_)
    end in
  mret (start, end_,
        {[ "content_start"%string := VInt content_start;
           "content_end"%string := VInt content_end ]}).

(** [walk_link(index, _attr, entries, target)]. The dictionary [extras]
    is built with the bounds of the url and of the title, and the
    function returns a new dictionary with the content bounds alone. *)
Definition walk_link (index : Z) (entries : list node) (target : pystr * pystr)
    : M (Z * Z * gmap string value) :=
  let start := index in
  '(content_start, content_end, _) ← walk_multiple rec start entries 0;
  let end_ := content_end in
  let '(url, title) := target in
  let '(url_start, url_end) :=
    if bool_decide (url = []) then (content_end, content_end)
    else __find text url (Some end_) None in
  let '(title_start, title_end) :=
    if bool_decide (title = []) then (content_end, content_end)
    else __find text title (Some end_) None in
  let end_ := Z.max url_end title_end in
  let end_ :=
    if negb ((__get_line text content_end).1 =? (__get_line text end_).1) then content_end
    else if negb (url_start =? url_end) then end_ + 1
    else end_ in
  let extras : gmap string value :=
    {[ "content_start"%string := VInt content_start;
       "content_end"%string := VInt content_end ]} in
  let extras :=
    if negb (url_start =? url_end)
    then <["url_start"%string := VInt url_start]>
           (<["url_end"%string := VInt url_end]> extras)
    else extras in
  let extras :=
    if negb (title_start =? title_end)
    then <["title_start"%string := VInt title_start]>
           (<["title_end"%string := VInt title_end]> extras)
    else extras in
  mret (start, end_,
        {[ "content_start"%string := VInt content_start;
           "content_end"%string := VInt content_end ]}).

(** [walk_note(index, entries)] *)
Definition walk_note (index : Z) (entries : list node)
    : M (Z * Z * gmap string value) :=
  let start := index in
  let end_ := index in
  if startswith (slice text (Some start) None) (str "^[") 0 then
    '(start, end_, _) ← walk_multiple rec start entries 0;
    let extras : gmap string value :=
      {[ "type"%string := VStr (str "inline");
         "content_start"%string := VInt start; "content_end"%string := VInt end_ ]} in
    mret (start, end_ + 1, extras)
  else
    let extras : gmap string value := {[ "type"%string := VStr (str "footnote") ]} in
    match footnote_identifier (slice text (Some start) None) ≫= footnote_definition_start with
    | Some match_start =>
        '(start, end_, _) ← walk_multiple rec match_start entries 0;
        mret (start, end_,
              <["content_start"%string := VInt start]>
                (<["content_end"%string := VInt end_]> extras))
    | None => mret (start, end_, extras)
    end.

(** The dispatch: [fn(index, *args_fn(entry.get("c")))] for the pair
    [fn, args_fn] of the entry's tag. An [Unknown] entry has no contents
    to pass on. *)
Definition walk_fn (index : Z) (entry : node) : M (Z * Z * gmap string value) :=
  match entry with
  | Plain args => walk_multiple rec index args 0
  | Para args => walk_multiple rec index args 0
  | LineBlock args => walk_multiple_nested rec 0 index args
  | CodeBlock _ string_ => mret (walk_code_block index string_)
  | RawBlock _ string_ => mret (walk_str index string_)
  | BlockQuote args => walk_multiple rec index args 0
  | OrderedList entries_nested => walk_list index entries_nested
  | BulletList args => walk_list index args
  | DefinitionList arg => walk_multiple_to_multiple_nested rec index arg
  | Header level _ entries => walk_header index level entries
  | HorizontalRule => lift (walk_horizontal_rule index)
  | Table caption header rows => walk_table index caption header rows
  | Div a entries => walk_div index a entries
  | Null => mret (walk_nothing index)
  | Str arg => mret (walk_str index arg)
  | Emph args => walk_multiple rec index args 1
  | Strong args => walk_multiple rec index args 2
  | Strikeout args => walk_multiple rec index args 2
  | Superscript args => walk_multiple rec index args 1
  | Subscript args => walk_multiple rec index args 1
  | SmallCaps args => walk_small_caps index args
  | Quoted entries => walk_multiple rec index entries 1
  | Cite citations _ => lift (walk_cite index citations)
  | Code _ string_ => mret (walk_code index string_)
  | Space | SoftBreak | LineBreak => lift (walk_spaces index)
  | Math mt string_ => mret (walk_math index mt string_)
  | RawInline _ string_ => mret (walk_str index string_)
  | Link _ entries target => walk_link index entries target
  | Image _ entries target => walk_link index entries target
  | Note args => walk_note index args
  | Span _ entries => walk_multiple rec index entries 0
  | Unknown _ => λ _, Raised TypeError
  end.

(** The second half of [walk_one]: the validity check, the trimming of
    the non-spaced types, the widening of the paragraph types, and the
    append to [self.results]. *)
Definition save (t : string) (start end_ : Z) (extras : gmap string value)
    : M (option Result) :=
  if (start <? 0) || (end_ <? 0) || (end_ <=? start) then
    _ ← warn (InvalidResult (mkResult t start end_ extras));
    mret None
  else
    '(start, end_) ←
      (if bool_decide (t ∈ non_spaced_types) then
         start ← lift (skip_spaces_forward start);
         end_ ← lift (skip_spaces_backward end_);
         mret (start, end_)
       else mret (start, end_));
    let result :=
      if bool_decide (t ∈ paragraph_types) then
        mkResult t (__get_line text start).1 (__get_line text end_).2
          (<["s"%string := VInt start]> (<["e"%string := VInt end_]> extras))
      else mkResult t start end_ extras in
    _ ← append_result result;
    mret (Some result).

(** The body of [walk_one(index, entry)]. *)
Definition walk_one_body (index : Z) (entry : node) : M (option Result) :=
  let t := node_tag entry in
  if negb (bool_decide (t ∈ types)) then
    _ ← warn (UnknownType t);
    mret None
  else
    '(start, end_, extras) ← walk_fn index entry;
    save t start end_ extras.

End Walkers.

(** [walk_one(index, entry)] *)
Fixpoint walk_one (index : Z) (entry : node) {struct entry} : M (option Result) :=
  walk_one_body walk_one index entry.

(** [walk()], given the blocks of the converted text. *)
Definition walk (blocks : list node) : outcome (list Result) :=
  match walk_multiple walk_one 0 blocks 0 (mkState [] []) with
  | Done _ s => Done (results s) s
  | Raised e => Raised e
  end.

End Walker.

(** * The vocabulary of the properties *)

(** The iterations a scanning loop can still make from [j]. *)
Definition scan_bound (text : pystr) (off step j : Z) : nat :=
  if (j + off <? - len text) || (len text <=? j + off) then 0%nat
  else if step =? 1 then Z.to_nat (len text - (j + off))
  else Z.to_nat (j + off + len text + 1).

(** The states the loop of [__find_unescaped] goes through: the tentative
    start of a match is [-1] or a position already passed. *)
Definition fu_inv (st : fu_state) : Prop :=
  0 <= fu_i st ∧ (fu_start_match st = -1 ∨ 0 <= fu_start_match st <= fu_i st).

(** A span is trimmed when both trimming loops leave it as it is. *)
Definition trimmed (text : pystr) (r : Result) : Prop :=
  skip_spaces_forward text (res_start r) = Some (res_start r)
  ∧ skip_spaces_backward text (res_end r) = Some (res_end r).

(** The boundary characters of a recorded span of a non-spaced type are
    not whitespace, and trimming it again changes nothing. *)
Definition trim_stable (text : pystr) (r : Result) : Prop :=
  res_type r ∈ non_spaced_types →
  (∃ c, getitem text (res_start r) = Some c ∧ isspace c = false)
  ∧ (∃ c, getitem text (res_end r - 1) = Some c ∧ isspace c = false)
  ∧ skip_spaces_forward text (res_start r) = Some (res_start r)
  ∧ skip_spaces_backward text (res_end r) = Some (res_end r).

(** The invariant of a recorded span. *)
Definition span_contained (text : pystr) (r : Result) : Prop :=
  0 <= res_start r ∧ res_start r < res_end r ∧ res_end r <= len text.

(** The predicate in the words of the specification: [r], produced after
    the results [prevs] of the same accumulation, is unordered. *)
Definition unordered (text : pystr) (prevs : list Result) (r : Result) : Prop :=
  (res_type r = "Div"%string
     ∧ res_extras r !! "identifier"%string = Some (VStr (str "refs")))
  ∨ (res_type r = "Note"%string
     ∧ res_extras r !! "type"%string = Some (VStr (str "footnote")))
  ∨ (∃ prev, prev ∈ prevs ∧ res_type prev = "SoftBreak"%string
       ∧ NL ∉ slice text (Some (res_start prev)) (Some (res_end prev))).

(** The line span that contains position [p], in the words of the
    specification: it runs from just after the previous newline (or [0])
    to the next newline (or the end of the text), and holds no newline. *)
Definition is_line_of (text : pystr) (p : Z) (span : Z * Z) : Prop :=
  0 <= span.1 <= p ∧ p <= span.2 <= len text
  ∧ (span.1 = 0 ∨ getitem text (span.1 - 1) = Some NL)
  ∧ (span.2 = len text ∨ getitem text span.2 = Some NL)
  ∧ ∀ k, span.1 <= k < span.2 → getitem text k ≠ Some NL.

(** A source range matches a target character by character: literally,
    through an escape-table key that decodes to the character, or with a
    carriage return skipped. *)
Inductive matches_target : pystr → pystr → Prop :=
  | mt_nil : matches_target [] []
  | mt_literal c src sub :
      matches_target src sub → matches_target (c :: src) (c :: sub)
  | mt_return src sub :
      matches_target src sub → matches_target (CR :: src) sub
  | mt_escape k v src sub :
      (k, v) ∈ escape_table → matches_target src sub →
      matches_target (k ++ src) (v :: sub).

(** [appends P m]: when [m] returns, it has only appended results to
    [self.results], and each of them satisfies [P]. *)
Definition appends (P : Result → Prop) {A} (m : M A) : Prop :=
  ∀ st a st', m st = Done a st' →
    ∃ new, results st' = results st ++ new ∧ Forall P new.

(** The walker [rec] appends only results that satisfy [P], on the entry. *)
Definition good (P : Result → Prop) (rec : Z → node → M (option Result))
    (entry : node) : Prop :=
  ∀ index, appends P (rec index entry).

(** The entries below an entry are nested in lists (and pairs of lists);
    [Forall_sub Q entry] says that [Q] holds of all of them. *)
Definition Forall_sub (Q : node → Prop) (entry : node) : Prop :=
  match entry with
  | Plain l | Para l | BlockQuote l | Header _ _ l | Div _ l
  | Emph l | Strong l | Strikeout l | Superscript l | Subscript l
  | SmallCaps l | Quoted l | Link _ l _ | Image _ l _ | Note l | Span _ l
  | Cite _ l => Forall Q l
  | LineBlock ll | OrderedList ll | BulletList ll => Forall (Forall Q) ll
  | DefinitionList items =>
      Forall (λ p, Forall Q p.1 ∧ Forall (Forall Q) p.2) items
  | Table c h r => Forall Q c ∧ Forall (Forall Q) h ∧ Forall (Forall (Forall Q)) r
  | _ => True
  end.

(** [Forall] from a proof for every element, by recursion on the list. *)
Definition Forall_fix {A} (Q : A → Prop) (f : ∀ a, Q a) : ∀ l, Forall Q l :=
  fix go l :=
    match l with
    | [] => Forall_nil_2 Q
    | a :: l' => Forall_cons_2 Q a l' (f a) (go l')
    end.

(** The entries that span nothing whatever the text: [Null], and a
    container without padding that has no entries. *)
Definition spans_nothing (entry : node) : bool :=
  match entry with
  | Null | Plain [] | Para [] | BlockQuote [] | LineBlock [] | OrderedList []
  | BulletList [] | DefinitionList [] | Div _ [] | Span _ [] => true
  | _ => false
  end.

(** What [walk_one] guarantees of a span it records, by the kind of the
    entry: a paragraph type is widened to whole lines, a non-spaced type is
    trimmed, and any other type is recorded as its walker returned it. *)
Definition whole_lines (text : pystr) (r : Result) : Prop :=
  res_start r <= res_end r <= len text
  ∧ (res_start r = 0 ∨ getitem text (res_start r - 1) = Some NL)
  ∧ (res_end r = len text ∨ getitem text (res_end r) = Some NL)
  ∧ ∃ s e, res_extras r !! "s"%string = Some (VInt s)
           ∧ res_extras r !! "e"%string = Some (VInt e)
           ∧ 0 <= s < e ∧ res_start r <= s ∧ (e <= len text → e <= res_end r).

Definition recorded_ok (text : pystr) (r : Result) : Prop :=
  0 <= res_start r
  ∧ (res_type r ∈ paragraph_types → whole_lines text r)
  ∧ (res_type r ∈ non_spaced_types → res_start r < len text ∧ res_end r <= len text)
  ∧ (res_type r ∉ paragraph_types → res_type r ∉ non_spaced_types →
     res_start r < res_end r).

(** Every position of [lo <= k < hi] holds a whitespace character. *)
Definition all_space (text : pystr) (lo hi : Z) : Prop :=
  ∀ k, lo <= k < hi → ∃ c, getitem text k = Some c ∧ isspace c = true.

(** [sub] is located at [span]: the span is the [(-1, -1)] of a failed
    search, or lies in the text and holds [sub]. *)
Definition located (text sub : pystr) (span : Z * Z) : Prop :=
  span = (-1, -1)
  ∨ (0 <= span.1 ∧ span.2 = span.1 + len sub ∧ span.2 <= len text
     ∧ slice text (Some span.1) (Some span.2) = sub).

(** The width of the delimiters that the dispatch table gives to an
    entry: the [padding] of [walk_multiple], the fence of a [Code], the
    dollar signs of a [Math]. *)
Definition delimiter_width (entry : node) : option Z :=
  match entry with
  | Emph _ | Superscript _ | Subscript _ | Quoted _ | Code _ _ => Some 1
  | Strong _ | Strikeout _ => Some 2
  | Math mt _ => Some (len (math_delims mt))
  | _ => None
  end.

(** * Properties *)

(** ** The model on small inputs *)

Example str_ok : str "a b" = [97; 32; 98].
Proof. reflexivity. Qed.
Example find_ok : py_find (str "hello world") (str "o") (Some 5) None = 7.
Proof. reflexivity. Qed.
Example find_empty_end : py_find (str "abc") [] (Some 3) None = 3.
Proof. reflexivity. Qed.
Example find_empty_past : py_find (str "abc") [] (Some 4) None = -1.
Proof. reflexivity. Qed.
Example find_negative : py_find (str "abcabc") (str "b") (Some (-2)) None = 4.
Proof. reflexivity. Qed.
Example rfind_ok : py_rfind (str "a-b-c") (str "-") (Some 0) (Some 3) = 1.
Proof. reflexivity. Qed.
Example startswith_empty_past : startswith (str "abc") [] 4 = false.
Proof. reflexivity. Qed.
Example split_ok : split (str "  x =  1 ") = [str "x"; str "="; str "1"].
Proof. reflexivity. Qed.
Example slice_ok : slice (str "abcdef") (Some (-3)) (Some 10) = str "def".
Proof. reflexivity. Qed.
Example fu_1 : __find_unescaped (str "a \_b_ c") (str "_b_") None None = (2, 6).
Proof. vm_compute. reflexivity. Qed.
Example fu_2 : __find_unescaped (str "\_") (str "*") (Some 0) None = (0, 2).
Proof. vm_compute. reflexivity. Qed.
Example fu_3 : __find_unescaped (str "aab") (str "ab") (Some 0) None = (1, 3).
Proof. vm_compute. reflexivity. Qed.
Example gl_1 : __get_line_before (str "ab" ++ [NL] ++ str "cd") 5 = (0, 2).
Proof. vm_compute. reflexivity. Qed.
Example gl_2 : __get_line (str "ab" ++ [NL] ++ str "cd") 4 = (3, 5).
Proof. vm_compute. reflexivity. Qed.
Example gl_3 : __get_line_after (str "ab" ++ [NL] ++ str "cd") 0 = (3, 5).
Proof. vm_compute. reflexivity. Qed.

Example code_block_delim_ok :
  code_block_delim (str "```python") = true ∧ code_block_delim (str "  ~~~") = true
  ∧ code_block_delim (str "    ```") = false ∧ code_block_delim (str "``") = false.
Proof. by vm_compute. Qed.
Example header_setext_delim_ok :
  header_setext_delim (str "---") = true ∧ header_setext_delim (str " ===  ") = true
  ∧ header_setext_delim (str "-=-") = false ∧ header_setext_delim [] = false.
Proof. by vm_compute. Qed.
Example table_delim_ok :
  table_delim (str "--- ---") = true ∧ table_delim (str "  -+-:  ") = true
  ∧ table_delim (str "--- x") = false.
Proof. by vm_compute. Qed.
Example footnote_identifier_ok :
  footnote_identifier (str "[^a] x") = Some (str "[^a]")
  ∧ footnote_identifier (str "[^a]]b] c") = Some (str "[^a]]b]")
  ∧ footnote_identifier (str "[^] x") = None.
Proof. by vm_compute. Qed.

(** The literal text [Hello **world**!]: the [Strong] span covers both
    pairs of asterisks and its content span covers [world]. *)
Example walk_strong :
  walk (str "Hello **world**!")
    [Para [Str (str "Hello"); Space; Strong [Str (str "world")]; Str (str "!")]]
  = Done [ mkResult "Str" 0 5 ∅; mkResult "Space" 5 6 ∅; mkResult "Str" 8 13 ∅;
           mkResult "Strong" 6 15
             {[ "content_start"%string := VInt 8; "content_end"%string := VInt 13 ]};
           mkResult "Str" 15 16 ∅;
           mkResult "Para" 0 16 {[ "s"%string := VInt 0; "e"%string := VInt 16 ]} ]
         (mkState
            [ mkResult "Str" 0 5 ∅; mkResult "Space" 5 6 ∅; mkResult "Str" 8 13 ∅;
              mkResult "Strong" 6 15
                {[ "content_start"%string := VInt 8; "content_end"%string := VInt 13 ]};
              mkResult "Str" 15 16 ∅;
              mkResult "Para" 0 16 {[ "s"%string := VInt 0; "e"%string := VInt 16 ]} ]
            []).
Proof. by vm_compute. Qed.

(** A fenced code block: the outer bounds take in both fence lines, the
    content bounds are those of [x = 1]. *)
Example walk_fenced_code :
  walk_code_block (str "```python" ++ [NL] ++ str "x = 1" ++ [NL] ++ str "```" ++ [NL])
    0 (str "x = 1")
  = (0, 19, {[ "content_start"%string := VInt 10; "content_end"%string := VInt 15 ]}).
Proof. by vm_compute. Qed.

(** A link with a url and no title: the end takes in the closing
    parenthesis. *)
Example walk_link_url :
  walk_one (str "[text](http://example.com)") 0
    (Link (mkAttr [] [] []) [Str (str "text")] (str "http://example.com", []))
    (mkState [] [])
  = Done (Some (mkResult "Link" 0 26
                  {[ "content_start"%string := VInt 1; "content_end"%string := VInt 5 ]}))
         (mkState
            [ mkResult "Str" 1 5 ∅;
              mkResult "Link" 0 26
                {[ "content_start"%string := VInt 1; "content_end"%string := VInt 5 ]} ]
            []).
Proof. by vm_compute. Qed.

(** From a negative index Python's indexing wraps around, and the scan of
    [walk_spaces] goes on from the start of the text. *)
Example walk_spaces_negative_index :
  walk_spaces (str " ab") (-1) = Some (0, 1, ∅).
Proof. by vm_compute. Qed.

(** ** Indexing and slices *)

Lemma len_nonneg (t : pystr) : 0 <= len t.
Proof. unfold len. lia. Qed.

Lemma getitem_Some_range (t : pystr) i c :
  getitem t i = Some c → - len t <= i < len t.
Proof.
  unfold getitem. destruct (_ || _) eqn:E; [discriminate|].
  apply orb_false_iff in E as [E1 E2]. lia.
Qed.

Lemma getitem_nonneg (t : pystr) i :
  0 <= i → getitem t i = t !! Z.to_nat i.
Proof.
  intros Hi. unfold getitem.
  destruct (_ || _) eqn:E.
  - symmetry. apply lookup_ge_None_2. unfold len in E.
    apply orb_true_iff in E as [E|E]; lia.
  - destruct (i <? 0) eqn:E'; [lia|done].
Qed.

Lemma getitem_drop (t : pystr) (k : nat) c rest :
  drop k t = c :: rest → getitem t (Z.of_nat k) = Some c.
Proof.
  intros H. rewrite getitem_nonneg by lia. rewrite Nat2Z.id.
  pose proof (lookup_drop t k 0) as H'. rewrite Nat.add_0_r, H in H'. done.
Qed.

Lemma getitem_drop_nil (t : pystr) (k : nat) :
  drop k t = [] → getitem t (Z.of_nat k) = None.
Proof.
  intros H. rewrite getitem_nonneg by lia. rewrite Nat2Z.id.
  apply lookup_ge_None_2.
  apply (f_equal length) in H. rewrite length_drop in H. simpl in H. lia.
Qed.

Lemma slice_from_nonneg (t : pystr) i :
  0 <= i → slice t (Some i) None = drop (Z.to_nat i) t.
Proof.
  intros Hi. unfold slice, clamp. simpl.
  pose proof (len_nonneg t) as Hn.
  destruct (i <? 0) eqn:E1; [lia|]. destruct (len t <? 0) eqn:E2; [lia|].
  rewrite Z.min_id.
  destruct (Z.le_gt_cases i (len t)) as [Hle|Hgt].
  - rewrite Z.min_l by lia. apply take_ge. rewrite length_drop. unfold len in *. lia.
  - rewrite Z.min_r by lia. replace (Z.to_nat (len t - len t)) with 0%nat by lia.
    rewrite take_0. symmetry. apply drop_ge. unfold len in *. lia.
Qed.

(** ** The scanning loops never run out of their counter *)

Section Scan.

Variable text : pystr.

Lemma scan_loop_enough guard p off step :
  step = 1 ∨ step = -1 →
  ∀ fuel fuel' j,
    (scan_bound text off step j < fuel)%nat → (scan_bound text off step j < fuel')%nat →
    scan_loop text fuel guard p off step j = scan_loop text fuel' guard p off step j.
Proof.
  intros Hstep. induction fuel as [|fuel IH]; intros fuel' j H1 H2; [lia|].
  destruct fuel' as [|fuel']; [lia|]. simpl.
  destruct (guard j); [|done].
  destruct (getitem text (j + off)) as [c|] eqn:Hc; [|done]. simpl.
  destruct (p c); [|done].
  apply getitem_Some_range in Hc.
  assert (S (scan_bound text off step (j + step)) <= scan_bound text off step j)%nat.
  { unfold scan_bound.
    destruct ((j + off <? - len text) || (len text <=? j + off)) eqn:E.
    { apply orb_true_iff in E as [E|E]; lia. }
    destruct ((j + step + off <? - len text) || (len text <=? j + step + off)); [|
      destruct Hstep as [-> | ->]; simpl; lia].
    destruct Hstep as [-> | ->]; simpl; lia. }
  apply IH; lia.
Qed.

Lemma scan_bound_le off step j :
  (scan_bound text off step j <= Z.to_nat (2 * len text))%nat.
Proof.
  unfold scan_bound.
  destruct ((j + off <? - len text) || (len text <=? j + off)) eqn:E; [lia|].
  apply orb_false_iff in E as [E1 E2].
  destruct (step =? 1); lia.
Qed.

(** The loop equation of [scan]: one iteration, then the loop again. *)
Lemma scan_unfold guard p off step j :
  step = 1 ∨ step = -1 →
  scan text guard p off step j =
    if guard j then
      c ← getitem text (j + off);
      if p c then scan text guard p off step (j + step) else Some j
    else Some j.
Proof.
  intros Hstep. unfold scan at 1. simpl.
  destruct (guard j); [|done].
  destruct (getitem text (j + off)) as [c|]; [|done]. simpl.
  destruct (p c); [|done].
  unfold scan. pose proof (scan_bound_le off step (j + step)).
  pose proof (len_nonneg text).
  apply scan_loop_enough; [done|lia|lia].
Qed.

(** A scan that returns has stopped on a character that fails the test
    (or on the guard). *)
Lemma scan_loop_stops guard p off step fuel j j' :
  scan_loop text fuel guard p off step j = Some j' →
  guard j' = false ∨ ∃ c, getitem text (j' + off) = Some c ∧ p c = false.
Proof.
  revert j. induction fuel as [|fuel IH]; intros j; simpl; [discriminate|].
  destruct (guard j) eqn:G; [|intros [= <-]; by left].
  destruct (getitem text (j + off)) as [c|] eqn:Hc; [|discriminate]. simpl.
  destruct (p c) eqn:Hp; [apply IH|].
  intros [= <-]. right. eauto.
Qed.

Lemma scan_always_stops p off step j j' :
  scan text always p off step j = Some j' →
  ∃ c, getitem text (j' + off) = Some c ∧ p c = false.
Proof.
  intros H. apply scan_loop_stops in H as [H|H]; [discriminate|done].
Qed.

(** Scanning again from where a scan stopped does not move. *)
Lemma scan_always_fixed p off step j j' :
  step = 1 ∨ step = -1 →
  scan text always p off step j = Some j' →
  scan text always p off step j' = Some j'.
Proof.
  intros Hstep H. apply scan_always_stops in H as (c & Hc & Hp).
  rewrite scan_unfold by done. simpl. rewrite Hc. simpl. by rewrite Hp.
Qed.

(** Forward scans over a run of characters that pass the test. *)
Lemma scan_forward_run p (a rest : pystr) (k : nat) :
  drop k text = a ++ rest → forallb p a = true →
  scan text always p 0 1 (Z.of_nat k) =
  scan text always p 0 1 (Z.of_nat (k + length a)).
Proof.
  revert k. induction a as [|c a IH]; intros k Hd Ha.
  - simpl. by rewrite Nat.add_0_r.
  - simpl in Ha. apply andb_true_iff in Ha as [Hc Ha].
    rewrite scan_unfold by auto. simpl. rewrite Z.add_0_r.
    rewrite (getitem_drop _ _ _ _ Hd). simpl. rewrite Hc.
    replace (Z.of_nat k + 1) with (Z.of_nat (S k)) by lia.
    rewrite (IH (S k)); [f_equal; simpl; lia| |done].
    replace (S k) with (k + 1)%nat by lia. rewrite <- drop_drop, Hd. done.
Qed.

Lemma scan_forward_end p (k : nat) :
  drop k text = [] → scan text always p 0 1 (Z.of_nat k) = None.
Proof.
  intros Hd. rewrite scan_unfold by auto. simpl. rewrite Z.add_0_r.
  by rewrite (getitem_drop_nil _ _ Hd).
Qed.

Lemma scan_forward_stop p (k : nat) c rest :
  drop k text = c :: rest → p c = false →
  scan text always p 0 1 (Z.of_nat k) = Some (Z.of_nat k).
Proof.
  intros Hd Hc. rewrite scan_unfold by auto. simpl. rewrite Z.add_0_r.
  rewrite (getitem_drop _ _ _ _ Hd). simpl. by rewrite Hc.
Qed.

End Scan.

(** ** The loop of the escape-aware search *)

Section FindUnescaped.

Variable text : pystr.

Lemma fu_inv_init start : 0 <= start → fu_inv (FuState start 0 (-1)).
Proof. intros H. split; simpl; [done|by left]. Qed.

Lemma fu_step_decreases sub end_ st st' :
  fu_inv st → fu_i st < end_ → fu_step text sub st = inr st' →
  fu_inv st' ∧ fu_measure end_ st' < fu_measure end_ st ∧ 0 < fu_measure end_ st.
Proof.
  intros [Hi Hsm] Hlt. unfold fu_step, fu_measure, fu_inv.
  destruct st as [i index sm]; simpl in *.
  generalize (fu_increment text sub (FuState i index sm)). intros inc.
  destruct (0 <? inc) eqn:E1.
  - destruct (index + 1 =? len sub); [discriminate|]. intros [= <-]. simpl.
    destruct (sm =? -1) eqn:E2.
    + assert (sm = -1) as -> by lia. simpl.
      destruct (i <? 0) eqn:E3; [lia|]. split; [lia|]. nia.
    + destruct Hsm as [?|Hsm]; [lia|].
      destruct (sm <? 0) eqn:E3; [lia|]. split; [lia|]. nia.
  - destruct ((inc <? 0) && (0 <=? sm)) eqn:E2; intros [= <-]; simpl.
    + apply andb_true_iff in E2 as [E2 E3].
      destruct Hsm as [?|Hsm]; [lia|].
      destruct (sm <? 0) eqn:E4; [lia|]. split; [lia|]. nia.
    + destruct Hsm as [->|Hsm]; simpl.
      * split; [lia|]. nia.
      * destruct (sm <? 0) eqn:E4; [lia|]. split; [lia|]. nia.
Qed.

Lemma fu_loop_enough sub end_ :
  ∀ fuel fuel' st,
    fu_inv st →
    (Z.to_nat (fu_measure end_ st) < fuel)%nat →
    (Z.to_nat (fu_measure end_ st) < fuel')%nat →
    fu_loop text fuel sub end_ st = fu_loop text fuel' sub end_ st.
Proof.
  induction fuel as [|fuel IH]; intros fuel' st Hinv H1 H2; [lia|].
  destruct fuel' as [|fuel']; [lia|]. simpl.
  destruct (fu_i st <? end_) eqn:E; [|done].
  destruct (fu_step text sub st) as [r|st'] eqn:Hs; [done|].
  destruct (fu_step_decreases sub end_ st st') as (Hinv' & Hlt & Hpos); [done|lia|done|].
  apply IH; [done|lia|lia].
Qed.

(** The loop equation of [while i < end]. *)
Lemma fu_run_unfold sub end_ st :
  fu_inv st →
  fu_run text sub end_ st =
    if fu_i st <? end_ then
      match fu_step text sub st with
      | inl r => r
      | inr st' => fu_run text sub end_ st'
      end
    else (-1, -1).
Proof.
  intros Hinv. unfold fu_run at 1. simpl.
  destruct (fu_i st <? end_) eqn:E; [|done].
  destruct (fu_step text sub st) as [r|st'] eqn:Hs; [done|].
  destruct (fu_step_decreases sub end_ st st') as (Hinv' & Hlt & Hpos); [done|lia|done|].
  unfold fu_run. apply fu_loop_enough; [done|lia|lia].
Qed.

End FindUnescaped.

(** ** The text locator *)

(** C4. Edge cases of the escape-aware locator [__find_unescaped], with
    [start] and [end] defaulting to [0] and [len(text)]: an invalid range
    ([start > end], a negative bound, or [end] beyond the text) returns
    [(-1, -1)] for every target, the empty one included; and on a valid
    range the empty target returns [(start, start)]. *)
Theorem find_unescaped_edge_cases (text sub : pystr) (start end_ : option Z) :
  let s := default 0 start in
  let e := default (len text) end_ in
  (s > e ∨ s < 0 ∨ e < 0 ∨ e > len text →
     __find_unescaped text sub start end_ = (-1, -1))
  ∧ (0 <= s ∧ s <= e ∧ e <= len text →
     __find_unescaped text [] start end_ = (s, s)).
Proof.
  intros s e. unfold __find_unescaped. fold s e. split.
  - intros H.
    destruct ((e <? s) || (s <? 0) || (len text <? e)) eqn:E; [done|].
    apply orb_false_iff in E as [E E3]. apply orb_false_iff in E as [E1 E2]. lia.
  - intros (H1 & H2 & H3).
    destruct ((e <? s) || (s <? 0) || (len text <? e)) eqn:E; [|done].
    apply orb_true_iff in E as [E|E]; [apply orb_true_iff in E as [E|E]|]; lia.
Qed.

Lemma find_unescaped_edge_cases_witness :
  __find_unescaped (str "abc") (str "b") (Some 2) (Some 1) = (-1, -1)
  ∧ __find_unescaped (str "abc") [] (Some 2) None = (2, 2).
Proof.
  split.
  - apply (find_unescaped_edge_cases (str "abc") (str "b") (Some 2) (Some 1)).
    left. simpl. lia.
  - apply (find_unescaped_edge_cases (str "abc") (str "b") (Some 2) None).
    simpl. unfold len. simpl. lia.
Defined.

Section RoundTrip.

Variables (text s : pystr) (i : nat).

(** [s] occurs verbatim at position [i]. *)
Hypothesis Hocc : take (length s) (drop i text) = s.
Hypothesis Hne : s ≠ [].

Lemma occ_lookup (k : nat) : (k < length s)%nat → text !! (i + k)%nat = s !! k.
Proof using Hocc.
  intros Hk. rewrite <- lookup_drop.
  transitivity (take (length s) (drop i text) !! k).
  - by rewrite lookup_take_lt.
  - by rewrite Hocc.
Qed.

Lemma occ_fits : (i + length s <= length text)%nat.
Proof using Hocc Hne.
  pose proof (f_equal length Hocc) as HL. rewrite length_take, length_drop in HL.
  assert (0 < length s)%nat by (destruct s; [done|simpl; lia]). lia.
Qed.

Lemma occ_char_eq (k : nat) :
  (k < length s)%nat → char_eq text (Z.of_nat i + Z.of_nat k) s (Z.of_nat k) = true.
Proof using Hocc.
  intros Hk. unfold char_eq.
  rewrite !getitem_nonneg by lia.
  replace (Z.to_nat (Z.of_nat i + Z.of_nat k)) with (i + k)%nat by lia.
  rewrite Nat2Z.id, occ_lookup by done.
  destruct (lookup_lt_is_Some_2 s k Hk) as [c ->]. apply Z.eqb_refl.
Qed.

(** After [k] characters matched literally, the loop matches the rest. *)
Lemma fu_run_literal (n k : nat) :
  (k + S n = length s)%nat →
  fu_run text s (len text)
    (FuState (Z.of_nat i + Z.of_nat k) (Z.of_nat k) (if k is O then -1 else Z.of_nat i))
  = (Z.of_nat i, Z.of_nat i + len s).
Proof using Hocc Hne.
  revert k. induction n as [|n IH]; intros k Hk.
  all: rewrite fu_run_unfold by (unfold fu_inv; simpl; destruct k; lia).
  all: pose proof occ_fits as Hfit.
  all: unfold fu_step, fu_increment; cbn [fu_i fu_index fu_start_match].
  all: rewrite occ_char_eq by lia.
  all: unfold len in *.
  all: destruct (Z.of_nat i + Z.of_nat k <? Z.of_nat (length text)) eqn:E; [|lia].
  all: change (0 <? 1) with true; cbn iota.
  all: assert ((if (if k is O then -1 else Z.of_nat i) =? -1
                then Z.of_nat i + Z.of_nat k else if k is O then -1 else Z.of_nat i)
               = Z.of_nat i) as ->
         by (destruct k; [simpl; lia|destruct (Z.of_nat i =? -1) eqn:E''; lia]).
  all: destruct (Z.of_nat k + 1 =? Z.of_nat (length s)) eqn:E'; try lia.
  - f_equal. lia.
  - specialize (IH (S k)). cbn iota in IH.
    replace (Z.of_nat i + Z.of_nat k + 1 `max` 1) with (Z.of_nat i + Z.of_nat (S k)) by lia.
    replace (Z.of_nat k + 1) with (Z.of_nat (S k)) by lia.
    apply IH. lia.
Qed.

Lemma find_unescaped_literal :
  __find_unescaped text s (Some (Z.of_nat i)) None = (Z.of_nat i, Z.of_nat i + len s).
Proof using Hocc Hne.
  unfold __find_unescaped. simpl.
  pose proof occ_fits as Hfit.
  destruct ((len text <? Z.of_nat i) || (Z.of_nat i <? 0) || (len text <? len text)) eqn:E.
  { unfold len in E.
    apply orb_true_iff in E as [E|E]; [apply orb_true_iff in E as [E|E]|]; lia. }
  rewrite bool_decide_eq_false_2 by done.
  assert (0 < length s)%nat as Hpos by (destruct s; [done|simpl; lia]).
  pose proof (fu_run_literal (length s - 1) 0) as H. simpl in H.
  rewrite Z.add_0_r in H. apply H. lia.
Qed.

Lemma find_literal :
  __find text s (Some (Z.of_nat i)) None = (Z.of_nat i, Z.of_nat i + len s).
Proof using Hocc Hne.
  pose proof occ_fits as Hfit.
  assert (py_find text s (Some (Z.of_nat i)) None = Z.of_nat i) as Hf.
  { unfold py_find, candidates. simpl.
    unfold adjust_start, adjust_end.
    destruct (Z.of_nat i <? 0) eqn:E1; [lia|].
    rewrite Z.ltb_irrefl.
    destruct (len text <? 0) eqn:E2; [unfold len in E2; lia|].
    rewrite seqZ_cons by (unfold len; lia). simpl.
    rewrite decide_True; [done|].
    unfold occurs_at. rewrite Nat2Z.id. by rewrite bool_decide_eq_true_2. }
  unfold __find. rewrite Hf.
  destruct (0 <=? Z.of_nat i) eqn:E; [done|lia].
Qed.

End RoundTrip.

(** [text[i:i+len(s)] == s] for a non-empty [s] and [0 <= i] puts [s]
    inside the text at [i]. *)
Lemma slice_occurrence (text s : pystr) (i : Z) :
  0 <= i → s ≠ [] → slice text (Some i) (Some (i + len s)) = s →
  take (length s) (drop (Z.to_nat i) text) = s.
Proof.
  intros Hi Hne H. unfold slice, clamp in H. simpl in H.
  pose proof (len_nonneg s) as Hs.
  destruct (i <? 0) eqn:E1; [lia|]. destruct (i + len s <? 0) eqn:E2; [lia|].
  assert (0 < len s) as Hpos. { destruct s; [done|unfold len; simpl; lia]. }
  pose proof (f_equal length H) as HL.
  rewrite length_take, length_drop in HL. unfold len in *.
  destruct (Z.le_gt_cases (Z.of_nat (length text)) i) as [Hge|Hlt].
  - rewrite Z.min_r in HL by lia. lia.
  - assert (i + Z.of_nat (length s) <= Z.of_nat (length text)) as Hfit by lia.
    rewrite (Z.min_l (i + _)), (Z.min_l i) in H by lia.
    replace (Z.to_nat (i + Z.of_nat (length s) - i)) with (length s) in H by lia.
    done.
Qed.

(** C5. Locator round-trip: when a non-empty [s] occurs verbatim in the
    text at position [i] ([text[i:i+len(s)] == s], with [0 <= i]), the
    escape-aware search started at [i] returns exactly [(i, i+len(s))];
    so does the plain search [__find]. *)
Theorem locator_round_trip (text s : pystr) (i : Z) :
  0 <= i → s ≠ [] → slice text (Some i) (Some (i + len s)) = s →
  __find_unescaped text s (Some i) None = (i, i + len s)
  ∧ __find text s (Some i) None = (i, i + len s).
Proof.
  intros Hi Hne H. apply slice_occurrence in H; [|done|done].
  rewrite <- (Z2Nat.id i) by done. split.
  - by apply find_unescaped_literal.
  - by apply find_literal.
Qed.

Lemma locator_round_trip_witness :
  __find_unescaped (str "say \*hi\* twice") (str "hi") (Some 6) None = (6, 6 + len (str "hi"))
  ∧ __find (str "say \*hi\* twice") (str "hi") (Some 6) None = (6, 6 + len (str "hi")).
Proof.
  apply (locator_round_trip (str "say \*hi\* twice") (str "hi") 6).
  - lia.
  - discriminate.
  - reflexivity.
Defined.

(** ** The whitespace walker *)

Lemma walk_spaces_runs_out (text : pystr) (index : Z) (skipped run : pystr) :
  0 <= index →
  slice text (Some index) None = skipped ++ run →
  forallb (λ c, negb (isspace c)) skipped = true →
  forallb isspace run = true →
  walk_spaces text index = None.
Proof.
  intros Hi Hs Hskip Hrun. rewrite slice_from_nonneg in Hs by done.
  rewrite <- (Z2Nat.id index) by done. set (k := Z.to_nat index) in *.
  assert (drop (k + length skipped) text = run) as Hd.
  { rewrite <- drop_drop, Hs. by rewrite drop_app_length. }
  unfold walk_spaces.
  rewrite (scan_forward_run text _ skipped run k Hs Hskip).
  destruct run as [|c run'].
  - by rewrite scan_forward_end.
  - simpl in Hrun. apply andb_true_iff in Hrun as [Hc Hrun'].
    rewrite (scan_forward_stop text _ _ c run' Hd) by (by rewrite Hc). simpl.
    rewrite (scan_forward_run text isspace (c :: run') [] (k + length skipped)).
    + rewrite scan_forward_end; [done|].
      rewrite <- drop_drop, Hd. apply drop_all.
    + by rewrite app_nil_r.
    + simpl. by rewrite Hc.
Qed.

(** C10. [walk_spaces] is partial: it scans forward without a bounds
    check. From a cursor [index] (an offset from the start of the text,
    [0 <= index]), when the suffix [text[index:]] holds no whitespace
    character, or when the whitespace run it consumes (after the
    characters [skipped] before it) extends to the very end of the text,
    the walker raises an index error ([None]) and returns no span. *)
Theorem walk_spaces_partial (text : pystr) (index : Z) :
  0 <= index →
  (forallb (λ c, negb (isspace c)) (slice text (Some index) None) = true →
   walk_spaces text index = None)
  ∧ (∀ skipped run,
       slice text (Some index) None = skipped ++ run →
       forallb (λ c, negb (isspace c)) skipped = true →
       run ≠ [] → forallb isspace run = true →
       walk_spaces text index = None).
Proof.
  intros Hi. split.
  - intros H. apply (walk_spaces_runs_out text index (slice text (Some index) None) []);
      [done| |done|done].
    by rewrite app_nil_r.
  - intros skipped run Hs Hskip _ Hrun.
    by apply (walk_spaces_runs_out text index skipped run).
Qed.

Lemma walk_spaces_partial_witness :
  walk_spaces (str "word") 1 = None ∧ walk_spaces (str "two words  ") 4 = None.
Proof.
  split.
  - apply (walk_spaces_partial (str "word") 1); [lia|reflexivity].
  - refine (proj2 (walk_spaces_partial (str "two words  ") 4 _) (str "words") (str "  ") _ _ _ _).
    + lia.
    + reflexivity.
    + reflexivity.
    + discriminate.
    + reflexivity.
Defined.

(** C10 as it is stated, for every cursor, fails. From the cursor [-1] of
    the text [" ab"] the suffix [text[-1:]] is ["b"], which holds no
    whitespace character, and yet the walker returns the span [(0, 1)]:
    Python's indexing wraps around at a negative index, so the scan goes
    on from the start of the text and finds the space there. *)
Lemma walk_spaces_partial_counterexample :
  forallb (λ c, negb (isspace c)) (slice (str " ab") (Some (-1)) None) = true
  ∧ walk_spaces (str " ab") (-1) = Some (0, 1, ∅)
  ∧ ¬ (∀ (text : pystr) (index : Z),
         forallb (λ c, negb (isspace c)) (slice text (Some index) None) = true →
         walk_spaces text index = None).
Proof.
  split; [by vm_compute|]. split; [by vm_compute|].
  intros H. specialize (H (str " ab") (-1) ltac:(by vm_compute)).
  vm_compute in H. discriminate H.
Qed.

(** ** The second half of [walk_one] *)

Lemma bind_Done {A B} (m : M A) (f : A → M B) st b st' :
  (m ≫= f) st = Done b st' → ∃ a st1, m st = Done a st1 ∧ f a st1 = Done b st'.
Proof.
  unfold mbind, M_bind. destruct (m st) as [a st1|e]; [eauto|discriminate].
Qed.

Lemma lift_Done {A} (o : option A) st a st' :
  lift o st = Done a st' → o = Some a ∧ st' = st.
Proof. unfold lift. destruct o; [|discriminate]. by intros [= -> ->]. Qed.

Lemma non_spaced_not_paragraph t :
  t ∈ non_spaced_types → t ∉ paragraph_types.
Proof.
  revert t. apply Forall_forall. apply (bool_decide_unpack _). by vm_compute.
Qed.

Lemma walk_one_unfold text index entry :
  walk_one text index entry = walk_one_body text (walk_one text) index entry.
Proof. by destruct entry. Qed.

(** What [save] appends and returns. *)
Lemma save_Some text t start end_ extras st r st' :
  save text t start end_ extras st = Done (Some r) st' →
  res_type r = t
  ∧ results st' = results st ++ [r] ∧ warnings st' = warnings st
  ∧ (t ∈ non_spaced_types →
       (∃ c, getitem text (res_start r) = Some c ∧ isspace c = false)
       ∧ (∃ c, getitem text (res_end r - 1) = Some c ∧ isspace c = false)
       ∧ trimmed text r).
Proof.
  unfold save.
  destruct ((start <? 0) || (end_ <? 0) || (end_ <=? start)).
  { intros H. apply bind_Done in H as (? & ? & _ & H). discriminate. }
  intros H. apply bind_Done in H as ([s e] & st1 & Htrim & H).
  apply bind_Done in H as ([] & st2 & Happ & H).
  injection H as <- <-. injection Happ as <-.
  assert (st1 = st ∧ (t ∈ non_spaced_types →
            skip_spaces_forward text start = Some s
            ∧ skip_spaces_backward text end_ = Some e)) as [-> Htr].
  { destruct (bool_decide (t ∈ non_spaced_types)) eqn:E.
    - apply bind_Done in Htrim as (s' & st3 & Hf & Htrim).
      apply bind_Done in Htrim as (e' & st4 & Hb & Htrim).
      apply lift_Done in Hf as [Hf ->]. apply lift_Done in Hb as [Hb ->].
      injection Htrim as -> -> ->. done.
    - injection Htrim as -> -> ->. split; [done|].
      intros Hns. by apply bool_decide_eq_false in E. }
  split; [by destruct (bool_decide (t ∈ paragraph_types))|].
  split; [done|]. split; [done|].
  intros Hns. destruct (Htr Hns) as [Hf Hb].
  rewrite (bool_decide_eq_false_2 _ (non_spaced_not_paragraph t Hns)).
  unfold trimmed, skip_spaces_forward, skip_spaces_backward in *.
  cbn [res_start res_end].
  pose proof (scan_always_stops _ _ _ _ _ _ Hf) as Hcf. rewrite Z.add_0_r in Hcf.
  pose proof (scan_always_stops _ _ _ _ _ _ Hb) as Hcb.
  repeat split; [done|done| |].
  - by apply (scan_always_fixed _ _ _ _ start); [auto|].
  - by apply (scan_always_fixed _ _ _ _ end_); [auto|].
Qed.

(** ** Induction on entries *)

Lemma node_sub_ind (Q : node → Prop) :
  (∀ entry, Forall_sub Q entry → Q entry) → ∀ entry, Q entry.
Proof.
  intros H. fix F 1. intros entry. apply H.
  destruct entry; simpl; try exact I.
  all: try exact (Forall_fix Q F _).
  all: try exact (Forall_fix _ (Forall_fix Q F) _).
  - exact (Forall_fix _ (λ p, conj (Forall_fix Q F p.1)
                                   (Forall_fix _ (Forall_fix Q F) p.2)) _).
  - exact (conj (Forall_fix Q F _)
             (conj (Forall_fix _ (Forall_fix Q F) _)
                   (Forall_fix _ (Forall_fix _ (Forall_fix Q F)) _))).
Qed.

(** ** What a walk appends to the result list *)

Section Appends.

Variable P : Result → Prop.

Lemma appends_ret {A} (a : A) : appends P (mret a).
Proof.
  intros st a' st' H. unfold mret, M_ret in H. injection H as <- <-.
  exists []. split; [by rewrite app_nil_r|constructor].
Qed.

Lemma appends_bind {A B} (m : M A) (f : A → M B) :
  appends P m → (∀ a, appends P (f a)) → appends P (m ≫= f).
Proof.
  intros Hm Hf st b st' H. apply bind_Done in H as (a & st1 & H1 & H2).
  destruct (Hm _ _ _ H1) as (n1 & E1 & F1). destruct (Hf _ _ _ _ H2) as (n2 & E2 & F2).
  exists (n1 ++ n2). rewrite E2, E1, app_assoc. split; [done|]. by apply Forall_app.
Qed.

Lemma appends_lift {A} (o : option A) : appends P (lift o).
Proof.
  intros st a st' H. apply lift_Done in H as [_ ->]. exists []. split; [by rewrite app_nil_r|constructor].
Qed.

Lemma appends_warn w : appends P (warn w).
Proof.
  intros st a st' H. unfold warn in H. injection H as <- <-.
  exists []. split; [by rewrite app_nil_r|constructor].
Qed.

Lemma appends_append r : P r → appends P (append_result r).
Proof.
  intros Hr st a st' H. unfold append_result in H. injection H as <- <-.
  exists [r]. split; [done|]. by apply Forall_singleton.
Qed.

Lemma appends_raise {A} e : appends P (λ _, Raised e : outcome A).
Proof. intros st a st' [=]. Qed.

End Appends.

(** Breaks a walker down to the calls of [rec]. *)
Ltac appends_step :=
  lazymatch goal with
  | |- appends _ (mret _) => apply appends_ret
  | |- appends _ (lift _) => apply appends_lift
  | |- appends _ (warn _) => apply appends_warn
  | |- appends _ (λ _, Raised _) => apply appends_raise
  | |- appends _ (_ ≫= _) => apply appends_bind; [|intros ?]
  | |- appends _ (match ?x with _ => _ end) => destruct x
  | |- appends _ (let '(_, _) := ?x in _) => destruct x
  end.

Section AppendsWalker.

Variables (text : pystr) (P : Result → Prop).
Variable rec : Z → node → M (option Result).

Lemma walk_multiple_loop_appends entries :
  Forall (good P rec) entries →
  ∀ i start end_ rs, appends P (walk_multiple_loop text rec entries i start end_ rs).
Proof.
  induction 1 as [|entry entries Hg _ IH]; intros i start end_ rs; simpl.
  - apply appends_ret.
  - apply appends_bind; [apply Hg|]. intros [r|]; [|apply IH].
    apply appends_bind; [apply appends_lift|]. intros []; apply IH.
Qed.

Lemma walk_multiple_appends index entries padding :
  Forall (good P rec) entries → appends P (walk_multiple text rec index entries padding).
Proof.
  intros H. unfold walk_multiple.
  apply appends_bind; [by apply walk_multiple_loop_appends|].
  intros [s e]. apply appends_ret.
Qed.

Lemma walk_nested_loop_appends {A} (inner : Z → A → M (Z * Z)) l :
  Forall (λ x, ∀ index, appends P (inner index x)) l →
  ∀ i start end_, appends P (walk_nested_loop inner l i start end_).
Proof.
  induction 1 as [|x l Hg _ IH]; intros i start end_; simpl.
  - apply appends_ret.
  - apply appends_bind; [apply Hg|]. intros [s e]. apply IH.
Qed.

Lemma walk_multiple_nested_0_appends index (entries_nested : list (list node)) :
  Forall (Forall (good P rec)) entries_nested →
  appends P (walk_multiple_nested text rec 0 index entries_nested).
Proof.
  intros H. simpl. apply appends_bind; [|intros [s e]; apply appends_ret].
  apply walk_nested_loop_appends.
  eapply Forall_impl; [exact H|]. intros l Hl idx. simpl in Hl.
  apply appends_bind; [by apply walk_multiple_appends|].
  intros [[s e] x]. apply appends_ret.
Qed.

Lemma walk_multiple_nested_1_appends index (rows : list (list (list node))) :
  Forall (Forall (Forall (good P rec))) rows →
  appends P (walk_multiple_nested text rec 1 index rows).
Proof.
  intros H. simpl. apply appends_bind; [|intros [s e]; apply appends_ret].
  apply walk_nested_loop_appends.
  eapply Forall_impl; [exact H|]. intros l Hl idx. simpl in Hl.
  apply appends_bind; [by apply (walk_multiple_nested_0_appends idx l)|].
  intros [[s e] x]. apply appends_ret.
Qed.

Lemma walk_pairs_loop_appends l :
  Forall (λ p, Forall (good P rec) p.1 ∧ Forall (Forall (good P rec)) p.2) l →
  ∀ i start end_, appends P (walk_pairs_loop text rec l i start end_).
Proof.
  induction 1 as [|[entry entries_nested] l [H1 H2] _ IH]; intros i start end_; simpl.
  - apply appends_ret.
  - apply appends_bind; [by apply walk_multiple_appends|]. intros [[s e] x].
    apply appends_bind; [by apply walk_multiple_nested_0_appends|]. intros [[s' e'] x'].
    apply IH.
Qed.

Hypothesis save_appends : ∀ t start end_ extras, appends P (save text t start end_ extras).

Lemma walk_fn_appends index entry :
  Forall_sub (good P rec) entry → appends P (walk_fn text rec index entry).
Proof.
  destruct entry; intros H; cbn [Forall_sub] in H; unfold walk_fn; lazy iota.
  all: unfold walk_list, walk_header, walk_table, walk_div, walk_small_caps,
         walk_link, walk_note, walk_multiple_to_multiple_nested.
  all: repeat first
    [ appends_step
    | apply walk_multiple_appends
    | apply walk_multiple_nested_0_appends
    | apply walk_multiple_nested_1_appends
    | apply walk_pairs_loop_appends
    | apply H ].
Qed.

Lemma walk_one_body_appends index entry :
  Forall_sub (good P rec) entry → appends P (walk_one_body text rec index entry).
Proof.
  intros H. unfold walk_one_body.
  destruct (negb (bool_decide (node_tag entry ∈ types))).
  - apply appends_bind; [apply appends_warn|]. intros _. apply appends_ret.
  - apply appends_bind; [by apply walk_fn_appends|]. intros [[s e] x]. apply save_appends.
Qed.

End AppendsWalker.

(** Every result a walk appends went through [save]. *)
Lemma walk_one_appends (text : pystr) (P : Result → Prop) :
  (∀ t start end_ extras, appends P (save text t start end_ extras)) →
  ∀ entry index, appends P (walk_one text index entry).
Proof.
  intros Hsave entry. induction entry as [entry IH] using node_sub_ind.
  intros index. rewrite walk_one_unfold.
  by apply walk_one_body_appends.
Qed.

(** ** Trimming *)

Lemma save_None text t start end_ extras st st' :
  save text t start end_ extras st = Done None st' → results st' = results st.
Proof.
  unfold save.
  destruct ((start <? 0) || (end_ <? 0) || (end_ <=? start)).
  - intros H. apply bind_Done in H as ([] & st1 & Hw & H).
    unfold warn in Hw. injection Hw as <-.
    unfold mret, M_ret in H. by injection H as <-.
  - intros H. apply bind_Done in H as ([s e] & st1 & _ & H).
    apply bind_Done in H as ([] & st2 & _ & H). discriminate.
Qed.

Lemma save_trim_stable text t start end_ extras :
  appends (trim_stable text) (save text t start end_ extras).
Proof.
  intros st [r|] st' H.
  - apply save_Some in H as (Ht & Hres & _ & Htrim).
    exists [r]. split; [done|]. apply Forall_singleton.
    intros Hns. rewrite Ht in Hns. destruct (Htrim Hns) as (? & ? & ? & ?). done.
  - apply save_None in H. exists []. split; [by rewrite app_nil_r|constructor].
Qed.

(** C9. Trim idempotence: every result of a non-spaced type that a walk
    has appended to the result list has non-whitespace boundary characters
    [text[start]] and [text[end - 1]] (Python indexing), so that applying
    the two trimming loops again leaves [start] and [end] unchanged. This
    holds of the results of [walk()], and of those any call of [walk_one]
    adds to the list. *)
Theorem trim_idempotent (text : pystr) :
  (∀ blocks rs st, walk text blocks = Done rs st →
     ∀ r, r ∈ rs → trim_stable text r)
  ∧ (∀ index entry st o st', walk_one text index entry st = Done o st' →
       ∃ new, results st' = results st ++ new ∧ Forall (trim_stable text) new).
Proof.
  assert (∀ entry index, appends (trim_stable text) (walk_one text index entry)) as Hone.
  { apply walk_one_appends. apply save_trim_stable. }
  split.
  - intros blocks rs st H r Hr. unfold walk in H.
    destruct (walk_multiple text (walk_one text) 0 blocks 0 (mkState [] [])) as [a s|e] eqn:Hw;
      [|discriminate].
    injection H as <- <-.
    apply (walk_multiple_appends text (trim_stable text)) in Hw as (new & Hnew & Hall).
    + simpl in Hnew. rewrite Hnew in Hr. by apply (proj1 (Forall_forall _ _) Hall).
    + apply Forall_forall. intros entry _ index. apply Hone.
  - intros index entry st o st' H. by apply (Hone entry index st o st').
Qed.

Lemma trim_idempotent_witness :
  skip_spaces_forward (str "Hello **world**!") 0 = Some 0
  ∧ skip_spaces_backward (str "Hello **world**!") 5 = Some 5.
Proof.
  assert (trim_stable (str "Hello **world**!") (mkResult "Str" 0 5 ∅)) as H.
  { eapply (proj1 (trim_idempotent (str "Hello **world**!"))
              [Para [Str (str "Hello"); Space; Strong [Str (str "world")]; Str (str "!")]]).
    - vm_compute. reflexivity.
    - apply list_elem_of_here. }
  destruct H as (_ & _ & Hf & Hb).
  - apply list_elem_of_here.
  - exact (conj Hf Hb).
Defined.

(** ** Unknown tags *)

(** C6. An entry whose tag is not in the dispatch table yields no result:
    [walk_one] emits the warning and returns [None] with the result list
    untouched; and the loop of [walk_multiple] goes on with the remaining
    siblings from the same cursor [end_], with the same inherited [start]
    and the same local results. *)
Theorem unknown_tag_skipped (text : pystr) (t : string) :
  t ∉ types →
  (∀ index st,
     walk_one text index (Unknown t) st
     = Done None (mkState (results st) (warnings st ++ [UnknownType t])))
  ∧ (∀ rest i start end_ rs st,
       walk_multiple_loop text (walk_one text) (Unknown t :: rest) i start end_ rs st
       = walk_multiple_loop text (walk_one text) rest (i + 1) start end_ rs
           (mkState (results st) (warnings st ++ [UnknownType t]))).
Proof.
  intros Ht.
  assert (∀ index st,
     walk_one text index (Unknown t) st
     = Done None (mkState (results st) (warnings st ++ [UnknownType t]))) as Hone.
  { intros index st. simpl. unfold walk_one_body. simpl.
    by rewrite (bool_decide_eq_false_2 _ Ht). }
  split; [done|].
  intros rest i start end_ rs st.
  cbn [walk_multiple_loop]. unfold mbind at 1, M_bind at 1. by rewrite Hone.
Qed.

Lemma unknown_tag_skipped_witness :
  walk_one (str "some text") 3 (Unknown "Underline") (mkState [] [])
  = Done None (mkState [] [UnknownType "Underline"]).
Proof.
  refine (proj1 (unknown_tag_skipped (str "some text") "Underline" _) 3 (mkState [] [])).
  apply (bool_decide_unpack _). vm_compute. exact I.
Defined.

(** ** The unordered-result predicate *)

Lemma contains_elem_of (t : pystr) c : contains t c = true ↔ c ∈ t.
Proof.
  unfold contains. rewrite existsb_exists. split.
  - intros (x & Hx & E). apply Z.eqb_eq in E as ->. by apply list_elem_of_In.
  - intros H. exists c. split; [by apply list_elem_of_In|apply Z.eqb_refl].
Qed.

Lemma is_last_result_ordered_spec text prevs r :
  ∃ b, __is_last_result_ordered text (prevs ++ [r]) = Some b
       ∧ (b = false ↔ unordered text prevs r).
Proof.
  unfold __is_last_result_ordered. rewrite last_snoc, removelast_last. simpl.
  eexists. split; [done|].
  rewrite negb_false_iff, !orb_true_iff, !andb_true_iff.
  unfold unordered.
  rewrite !String.eqb_eq, !bool_decide_eq_true, existsb_exists.
  split.
  - intros [[H|H]|(prev & Hin & H)]; [by left|by right; left|].
    right; right. exists prev.
    apply andb_true_iff in H as [H1 H2].
    apply String.eqb_eq in H1. apply negb_true_iff in H2.
    split; [by apply list_elem_of_In|]. split; [done|].
    intros Hc. apply contains_elem_of in Hc. congruence.
  - intros [H|[H|(prev & Hin & H1 & H2)]]; [by left; left|by left; right|].
    right. exists prev. split; [by apply list_elem_of_In|].
    apply andb_true_iff. split; [by apply String.eqb_eq|].
    apply negb_true_iff. destruct (contains _ NL) eqn:E; [|done].
    by apply contains_elem_of in E.
Qed.



(** ** The line utilities *)

Lemma occurs_at_char (t : pystr) c k :
  0 <= k → occurs_at t [c] k = true ↔ getitem t k = Some c.
Proof.
  intros Hk. rewrite getitem_nonneg by done. unfold occurs_at.
  rewrite bool_decide_eq_true.
  pose proof (lookup_drop t (Z.to_nat k) 0) as H. rewrite Nat.add_0_r in H.
  rewrite <- H. simpl. destruct (drop (Z.to_nat k) t) as [|x l]; simpl.
  - split; discriminate.
  - rewrite take_0. split; congruence.
Qed.

Lemma adjust_end_range n e : 0 <= n → 0 <= adjust_end n e <= n.
Proof. unfold adjust_end. intros. destruct (n <? e) eqn:?, (e <? 0) eqn:?; lia. Qed.

(** [find] of one character from a position inside the text: the first
    occurrence at or after [s], or [-1]. *)
Lemma py_find_char_spec (t : pystr) c s :
  0 <= s →
  let f := py_find t [c] (Some s) None in
  (f = -1 ∧ ∀ k, s <= k → getitem t k ≠ Some c)
  ∨ (s <= f ∧ getitem t f = Some c ∧ ∀ k, s <= k < f → getitem t k ≠ Some c).
Proof.
  intros Hs. unfold py_find, candidates. simpl.
  unfold adjust_start, adjust_end.
  pose proof (len_nonneg t) as Hn.
  destruct (s <? 0) eqn:E1; [lia|]. rewrite Z.ltb_irrefl.
  destruct (len t <? 0) eqn:E2; [lia|].
  change (len [c]) with 1.
  destruct (list_find _ _) as [[i x]|] eqn:Hf; simpl.
  - right. apply list_find_Some in Hf as (Hl & Hx & Hmin).
    apply lookup_seqZ in Hl as [-> Hi].
    apply Is_true_true in Hx. apply occurs_at_char in Hx; [|lia].
    split; [lia|]. split; [done|].
    intros k Hk Hc. apply (Hmin (Z.to_nat (k - s)) k).
    + apply lookup_seqZ. lia.
    + lia.
    + apply Is_true_true. apply occurs_at_char; [lia|done].
  - left. split; [done|]. intros k Hk Hc.
    apply list_find_None in Hf.
    pose proof (getitem_Some_range _ _ _ Hc) as Hr.
    eapply (proj1 (Forall_forall _ _) Hf k).
    + apply elem_of_seqZ. lia.
    + apply Is_true_true. apply occurs_at_char; [lia|done].
Qed.

(** [rfind] of one character in [t[0:e]]: the last occurrence below the
    normalised end, or [-1]. *)
Lemma py_rfind_char_spec (t : pystr) c e :
  let hi := adjust_end (len t) e in
  let r := py_rfind t [c] (Some 0) (Some e) in
  (r = -1 ∧ ∀ k, 0 <= k < hi → getitem t k ≠ Some c)
  ∨ (0 <= r < hi ∧ getitem t r = Some c ∧ ∀ k, r < k < hi → getitem t k ≠ Some c).
Proof.
  intros hi. unfold py_rfind, candidates. simpl.
  pose proof (len_nonneg t) as Hn.
  pose proof (adjust_end_range (len t) e Hn) as Hhi. fold hi in Hhi |- *.
  change (adjust_start (len t) 0) with 0. change (len [c]) with 1.
  replace (hi - 1 - 0 + 1) with hi by lia.
  assert (length (seqZ 0 hi) = Z.to_nat hi) as Hlen by apply length_seqZ.
  destruct (list_find _ _) as [[i x]|] eqn:Hf; simpl.
  - right. apply list_find_Some in Hf as (Hl & Hx & Hmin).
    pose proof (lookup_lt_Some _ _ _ Hl) as Hi. rewrite length_reverse, Hlen in Hi.
    rewrite reverse_lookup in Hl by lia. rewrite Hlen in Hl.
    apply lookup_seqZ in Hl as [-> Hi'].
    apply Is_true_true in Hx. apply occurs_at_char in Hx; [|lia].
    split; [lia|]. split; [done|].
    intros k Hk Hc. apply (Hmin (Z.to_nat (hi - 1 - k)) k).
    + rewrite reverse_lookup by lia. rewrite Hlen. apply lookup_seqZ. lia.
    + lia.
    + apply Is_true_true. apply occurs_at_char; [lia|done].
  - left. split; [done|]. intros k Hk Hc.
    apply list_find_None in Hf.
    eapply (proj1 (Forall_forall _ _) Hf k).
    + apply elem_of_reverse, elem_of_seqZ. lia.
    + apply Is_true_true. apply occurs_at_char; [lia|done].
Qed.

Section Lines.

Variable text : pystr.

(** What [__get_line] returns for any integer [index]. *)
Lemma get_line_bounds index :
  let hi := adjust_end (len text) index in
  let span := __get_line text index in
  0 <= span.1 <= hi ∧ span.1 <= span.2 <= len text
  ∧ (span.1 = 0 ∨ getitem text (span.1 - 1) = Some NL)
  ∧ (span.2 = len text ∨ getitem text span.2 = Some NL)
  ∧ (∀ k, span.1 <= k < hi → getitem text k ≠ Some NL)
  ∧ (∀ k, span.1 <= k < span.2 → getitem text k ≠ Some NL).
Proof.
  intros hi span. unfold span, __get_line. simpl.
  pose proof (len_nonneg text) as Hn.
  pose proof (adjust_end_range (len text) index Hn) as Hhi. fold hi in Hhi.
  pose proof (py_rfind_char_spec text NL index) as Hr. simpl in Hr. fold hi in Hr.
  set (r := py_rfind text [NL] (Some 0) (Some index)) in *.
  assert (0 <= r + 1) as Hs by (destruct Hr as [[-> _]|[? _]]; lia).
  pose proof (py_find_char_spec text NL (r + 1) Hs) as Hf. simpl in Hf.
  set (f := py_find text [NL] (Some (r + 1)) None) in *.
  assert (r + 1 <= hi) as Hshi by (destruct Hr as [[-> _]|[? _]]; lia).
  assert (r + 1 = 0 ∨ getitem text (r + 1 - 1) = Some NL) as Hprev.
  { destruct Hr as [[-> _]|(_ & Hc & _)]; [by left|right].
    by replace (r + 1 - 1) with r by lia. }
  assert (∀ k, r + 1 <= k < hi → getitem text k ≠ Some NL) as Hbefore.
  { intros k Hk. destruct Hr as [[-> Hno]|(_ & _ & Hno)]; apply Hno; lia. }
  destruct Hf as [[-> Hno]|(Hle & Hc & Hno)]; simpl.
  - split; [lia|]. split; [lia|]. split; [done|]. split; [by left|].
    split; [done|]. intros k Hk. apply Hno. lia.
  - pose proof (getitem_Some_range _ _ _ Hc) as Hrange.
    destruct (f <? 0) eqn:E; [lia|].
    split; [lia|]. split; [lia|]. split; [done|]. split; [by right|]. done.
Qed.

(** For a position of the text, [__get_line] is the line that contains
    it. *)
Lemma get_line_spec index :
  0 <= index <= len text → is_line_of text index (__get_line text index).
Proof.
  intros Hi.
  destruct (get_line_bounds index) as (H1 & H2 & H3 & H4 & H5 & H6).
  assert (adjust_end (len text) index = index) as Hhi.
  { unfold adjust_end. destruct (len text <? index) eqn:?, (index <? 0) eqn:?; lia. }
  rewrite Hhi in *. unfold is_line_of.
  split; [done|]. split; [|done].
  split; [|lia].
  destruct H4 as [->|Hc]; [lia|].
  destruct (Z.le_gt_cases index (__get_line text index).2) as [|Hlt]; [done|].
  exfalso. apply (H5 (__get_line text index).2); [lia|done].
Qed.

Lemma get_line_before_spec index :
  let s := (__get_line text index).1 in
  is_line_of text (Z.max (s - 1) 0) (__get_line_before text index)
  ∧ (0 < s → (__get_line_before text index).2 = s - 1).
Proof.
  intros s. unfold __get_line_before. fold s.
  destruct (get_line_bounds index) as (H1 & H2 & H3 & _). fold s in H1, H2, H3.
  pose proof (adjust_end_range (len text) index (len_nonneg text)) as Hhi.
  assert (is_line_of text (Z.max (s - 1) 0) (__get_line text (Z.max (s - 1) 0))) as HL
    by (apply get_line_spec; lia).
  split; [done|]. intros Hs.
  destruct H3 as [?|Hc]; [lia|].
  destruct HL as (Ha & Hb & _ & _ & Hno).
  rewrite Z.max_l in * by lia.
  destruct (Z.eq_dec (__get_line text (s - 1)).2 (s - 1)) as [|Hne]; [done|].
  exfalso. apply (Hno (s - 1)); [lia|done].
Qed.

Lemma get_line_after_spec index :
  text ≠ [] →
  let e := (__get_line text index).2 in
  is_line_of text (Z.min (e + 1) (len text - 1)) (__get_line_after text index)
  ∧ (e < len text - 1 → (__get_line_after text index).1 = e + 1).
Proof.
  intros Hne e. unfold __get_line_after. fold e.
  assert (0 < len text) as Hpos by (destruct text; [done|unfold len; simpl; lia]).
  destruct (get_line_bounds index) as (H1 & H2 & _ & H4 & _). fold e in H2, H4.
  assert (is_line_of text (Z.min (e + 1) (len text - 1))
            (__get_line text (Z.min (e + 1) (len text - 1)))) as HL
    by (apply get_line_spec; lia).
  split; [done|]. intros He.
  destruct H4 as [?|Hc]; [lia|].
  destruct HL as (Ha & Hb & _ & _ & Hno).
  rewrite Z.min_l in * by lia.
  destruct (Z.le_gt_cases (__get_line text (e + 1)).1 e) as [Hle|]; [|lia].
  exfalso. apply (Hno e); [lia|done].
Qed.

End Lines.

(** C8, as amended. With [(s, e) = __get_line(index)], which for a
    position [0 <= index <= len(text)] is the half-open line span that
    contains [index] (from just after the previous newline, or [0], to the
    next newline, or the end of the text, the newlines excluded):
    [__get_line_before(index)] is the line span containing position
    [s - 1] clamped at [0], so the line that ends just before [s] when
    [s > 0]; and, in a non-empty text, [__get_line_after(index)] is the
    line span containing position [e + 1] clamped at [len(text) - 1], so
    the line that starts just after [e] when there is one. *)
Theorem line_before_after (text : pystr) (index : Z) :
  let s := (__get_line text index).1 in
  let e := (__get_line text index).2 in
  (0 <= index <= len text → is_line_of text index (s, e))
  ∧ is_line_of text (Z.max (s - 1) 0) (__get_line_before text index)
  ∧ (0 < s → (__get_line_before text index).2 = s - 1)
  ∧ (text ≠ [] →
     is_line_of text (Z.min (e + 1) (len text - 1)) (__get_line_after text index)
     ∧ (e < len text - 1 → (__get_line_after text index).1 = e + 1)).
Proof.
  intros s e.
  split. { intros Hi. pose proof (get_line_spec text index Hi) as H.
           by destruct (__get_line text index). }
  split; [apply get_line_before_spec|].
  split; [apply get_line_before_spec|].
  intros Hne. by apply get_line_after_spec.
Qed.

Lemma line_before_after_witness :
  is_line_of (str "ab" ++ [NL] ++ str "cd") 5 (3, 5)
  ∧ (__get_line_before (str "ab" ++ [NL] ++ str "cd") 5).2 = 2
  ∧ (__get_line_after (str "ab" ++ [NL] ++ str "cd") 0).1 = 3.
Proof.
  split; [|split].
  - apply (proj1 (line_before_after (str "ab" ++ [NL] ++ str "cd") 5)).
    vm_compute. split; discriminate.
  - apply (proj1 (proj2 (proj2 (line_before_after (str "ab" ++ [NL] ++ str "cd") 5)))).
    vm_compute. reflexivity.
  - apply (proj2 (proj2 (proj2 (line_before_after (str "ab" ++ [NL] ++ str "cd") 0)))
             ltac:(discriminate)).
    vm_compute. reflexivity.
Defined.

(** C8 as it is stated fails: at index 5 of a text of two lines, the line
    before is the first line, [(0, 2)], and not the line that contains
    position [5 - 1], which is the second, [(3, 5)]; at index 0 the line
    after is the second line, and not the line that contains position
    [0 + 1], which is the first. *)
Lemma line_before_after_counterexample :
  __get_line_before (str "ab" ++ [NL] ++ str "cd") 5 = (0, 2)
  ∧ __get_line (str "ab" ++ [NL] ++ str "cd") (Z.max (5 - 1) 0) = (3, 5)
  ∧ ¬ is_line_of (str "ab" ++ [NL] ++ str "cd") (Z.max (5 - 1) 0)
        (__get_line_before (str "ab" ++ [NL] ++ str "cd") 5)
  ∧ __get_line_after (str "ab" ++ [NL] ++ str "cd") 0 = (3, 5)
  ∧ __get_line (str "ab" ++ [NL] ++ str "cd")
      (Z.min (0 + 1) (len (str "ab" ++ [NL] ++ str "cd") - 1)) = (0, 2)
  ∧ ¬ is_line_of (str "ab" ++ [NL] ++ str "cd")
        (Z.min (0 + 1) (len (str "ab" ++ [NL] ++ str "cd") - 1))
        (__get_line_after (str "ab" ++ [NL] ++ str "cd") 0).
Proof.
  split; [by vm_compute|]. split; [by vm_compute|]. split.
  { intros (_ & (Hb & _) & _). vm_compute in Hb. by apply Hb. }
  split; [by vm_compute|]. split; [by vm_compute|].
  intros ((_ & Ha) & _). vm_compute in Ha. by apply Ha.
Qed.

(** ** Recorded spans *)

(** C1. The walk of the text [a \  b] over the entries [Str "a"],
    [Space], a [Str] of a non-breaking space (the escaped space), [Space],
    [Str "b"] records for the non-breaking space the result
    [start = 5, end = 3]: the locator matches the space at [(3, 4)], which
    passes the validity check, and the trimming that follows moves [start]
    forward to 5 and [end] back to 3. The span invariant fails for it.
    The shortest case is a [Str] of one space on the text [ a]: the span
    [(0, 1)] is recorded as [(1, 0)]. *)
Theorem walk_records_inverted_span :
  walk (str "a \  b") [Para [Str (str "a"); Space; Str [160]; Space; Str (str "b")]]
  = Done [ mkResult "Str" 0 1 ∅; mkResult "Space" 1 2 ∅; mkResult "Str" 5 3 ∅;
           mkResult "Space" 3 5 ∅; mkResult "Str" 5 6 ∅;
           mkResult "Para" 0 6 {[ "s"%string := VInt 0; "e"%string := VInt 6 ]} ]
         (mkState
            [ mkResult "Str" 0 1 ∅; mkResult "Space" 1 2 ∅; mkResult "Str" 5 3 ∅;
              mkResult "Space" 3 5 ∅; mkResult "Str" 5 6 ∅;
              mkResult "Para" 0 6 {[ "s"%string := VInt 0; "e"%string := VInt 6 ]} ]
            [])
  ∧ walk_str (str "a \  b") 2 [160] = (3, 4, ∅)
  ∧ ¬ span_contained (str "a \  b") (mkResult "Str" 5 3 ∅)
  ∧ walk_one (str " a") 0 (Str (str " ")) (mkState [] [])
    = Done (Some (mkResult "Str" 1 0 ∅)) (mkState [mkResult "Str" 1 0 ∅] []).
Proof.
  split; [by vm_compute|]. split; [by vm_compute|].
  split; [|by vm_compute].
  unfold span_contained. simpl. lia.
Qed.

(** ** Links *)

(** C2. On the one-line link [[text](http://example.com "Title")], where
    the url is located at [(7, 25)] and the title at [(27, 32)],
    [walk_one] records a [Link] whose extras hold the content bounds and
    nothing else: the dictionary with the url and title bounds is built
    and dropped. The recorded end, 33, is one past the title, and the
    closing parenthesis at offset 33 stays outside the span. *)
Theorem link_extras_dropped :
  walk_one (str "[text](http://example.com " ++ [34] ++ str "Title" ++ [34] ++ str ")") 0
    (Link (mkAttr [] [] []) [Str (str "text")] (str "http://example.com", str "Title"))
    (mkState [] [])
  = Done (Some (mkResult "Link" 0 33
                  {[ "content_start"%string := VInt 1; "content_end"%string := VInt 5 ]}))
         (mkState
            [ mkResult "Str" 1 5 ∅;
              mkResult "Link" 0 33
                {[ "content_start"%string := VInt 1; "content_end"%string := VInt 5 ]} ]
            [])
  ∧ __find (str "[text](http://example.com " ++ [34] ++ str "Title" ++ [34] ++ str ")")
      (str "http://example.com") (Some 5) None = (7, 25)
  ∧ __find (str "[text](http://example.com " ++ [34] ++ str "Title" ++ [34] ++ str ")")
      (str "Title") (Some 5) None = (27, 32)
  ∧ ({[ "content_start"%string := VInt 1; "content_end"%string := VInt 5 ]}
       : gmap string value) !! "url_start"%string = None
  ∧ ({[ "content_start"%string := VInt 1; "content_end"%string := VInt 5 ]}
       : gmap string value) !! "title_start"%string = None
  ∧ getitem (str "[text](http://example.com " ++ [34] ++ str "Title" ++ [34] ++ str ")") 33
    = Some 41.
Proof.
  repeat split; by vm_compute.
Qed.

(** ** Escapes *)

Lemma escape_of_asterisk k : (k, 42) ∈ escape_table → k = [92; 42].
Proof.
  assert (Forall (λ p : list Z * Z, p.2 = 42 → p.1 = [92; 42]) escape_table) as H.
  { apply (bool_decide_unpack _). by vm_compute. }
  intros Hk. by apply (proj1 (Forall_forall _ _) H (k, 42) Hk).
Qed.

(** C3. The search for an asterisk in the text [\_] succeeds and consumes
    the two characters of the escaped underscore: the loop tests that the
    target character is a value of the table, and then takes the first key
    the text starts with, whatever that key decodes to. The consumed
    range does not match the target. *)
Theorem find_unescaped_any_escape :
  __find_unescaped (str "\_") (str "*") (Some 0) None = (0, 2)
  ∧ slice (str "\_") (Some 0) (Some 2) = [92; 95]
  ∧ (str "\_", 95) ∈ escape_table
  ∧ ¬ matches_target [92; 95] (str "*").
Proof.
  split; [by vm_compute|]. split; [by vm_compute|].
  split; [apply (bool_decide_unpack _); by vm_compute|].
  intros H. inversion H as [| | |k v src sub Hk Hm Hsrc Hv]; subst.
  apply escape_of_asterisk in Hk as ->. discriminate.
Qed.

(** * Further properties of the mapper *)

(** ** The plain locator *)

Lemma adjust_start_range n s : 0 <= n → 0 <= adjust_start n s.
Proof. unfold adjust_start. intros. destruct (s <? 0) eqn:?; lia. Qed.

Lemma slice_inside (t : pystr) a b :
  0 <= a → a <= b → b <= len t →
  slice t (Some a) (Some b) = take (Z.to_nat (b - a)) (drop (Z.to_nat a) t).
Proof.
  intros Ha Hab Hb. unfold slice, clamp. simpl.
  destruct (a <? 0) eqn:E1; [lia|]. destruct (b <? 0) eqn:E2; [lia|].
  by rewrite !Z.min_l by lia.
Qed.

Lemma occurs_at_slice (t sub : pystr) k :
  0 <= k → k + len sub <= len t →
  occurs_at t sub k = true ↔ slice t (Some k) (Some (k + len sub)) = sub.
Proof.
  intros Hk Hfit. pose proof (len_nonneg sub).
  rewrite slice_inside by lia. unfold occurs_at. rewrite bool_decide_eq_true.
  replace (Z.to_nat (k + len sub - k)) with (length sub) by (unfold len; lia). done.
Qed.

(** [t.find(sub, start, end)]: [-1] when [sub] occurs nowhere in the
    range, and otherwise the first position of the range where it occurs. *)
Lemma py_find_spec (t sub : pystr) (start end_ : option Z) :
  let lo := adjust_start (len t) (default 0 start) in
  let hi := adjust_end (len t) (default (len t) end_) in
  let f := py_find t sub start end_ in
  (f = -1 ∧ ∀ k, lo <= k → k + len sub <= hi → occurs_at t sub k = false)
  ∨ (lo <= f ∧ f + len sub <= hi ∧ occurs_at t sub f = true
     ∧ ∀ k, lo <= k < f → occurs_at t sub k = false).
Proof.
  intros lo hi. unfold py_find, candidates. fold lo hi.
  destruct (list_find _ _) as [[i x]|] eqn:Hf; simpl.
  - right. apply list_find_Some in Hf as (Hl & Hx & Hmin).
    apply lookup_seqZ in Hl as [-> Hi]. apply Is_true_true in Hx.
    split; [lia|]. split; [lia|]. split; [done|].
    intros k Hk. destruct (occurs_at t sub k) eqn:E; [|done]. exfalso.
    apply (Hmin (Z.to_nat (k - lo)) k).
    + apply lookup_seqZ. lia.
    + lia.
    + by apply Is_true_true.
  - left. split; [done|]. intros k Hk Hfit.
    apply list_find_None in Hf.
    destruct (occurs_at t sub k) eqn:E; [|done]. exfalso.
    eapply (proj1 (Forall_forall _ _) Hf k).
    + apply elem_of_seqZ. lia.
    + by apply Is_true_true.
Qed.

(** X1. [__find] is sound and finds the first occurrence: it returns
    either [(-1, -1)], and then [sub] occurs nowhere in the range, or
    [(s, s + len(sub))] inside the range with [text[s:s+len(sub)] == sub]
    and no occurrence of [sub] from the start of the range up to [s]. *)
Theorem find_sound (text sub : pystr) (start end_ : option Z) (s e : Z) :
  __find text sub start end_ = (s, e) →
  let lo := adjust_start (len text) (default 0 start) in
  let hi := adjust_end (len text) (default (len text) end_) in
  (s = -1 ∧ e = -1
   ∧ ∀ k, lo <= k → k + len sub <= hi →
       slice text (Some k) (Some (k + len sub)) ≠ sub)
  ∨ (lo <= s ∧ e = s + len sub ∧ e <= hi ∧ hi <= len text
     ∧ slice text (Some s) (Some e) = sub
     ∧ ∀ k, lo <= k < s → slice text (Some k) (Some (k + len sub)) ≠ sub).
Proof.
  intros H lo hi. unfold __find in H.
  pose proof (len_nonneg text) as Hn. pose proof (len_nonneg sub) as Hm.
  pose proof (adjust_start_range (len text) (default 0 start) Hn) as Hlo.
  pose proof (adjust_end_range (len text) (default (len text) end_) Hn) as Hhi.
  fold lo in Hlo. fold hi in Hhi.
  pose proof (py_find_spec text sub start end_) as Hf. simpl in Hf. fold lo hi in Hf.
  destruct Hf as [[Hf Hno]|(H1 & H2 & Hocc & Hno)].
  - rewrite Hf in H. simpl in H. injection H as <- <-. left.
    split; [done|]. split; [done|]. intros k Hk Hfit Hs.
    apply occurs_at_slice in Hs; [|lia|lia]. rewrite Hno in Hs; [done|lia|lia].
  - destruct (0 <=? py_find text sub start end_) eqn:E; [|lia].
    injection H as <- <-. right.
    split; [done|]. split; [done|]. split; [done|]. split; [lia|].
    split; [apply occurs_at_slice; [lia|lia|done]|].
    intros k Hk Hs. apply occurs_at_slice in Hs; [|lia|lia].
    rewrite Hno in Hs; [done|lia].
Qed.

Lemma find_sound_witness :
  slice (str "one two two") (Some 4) (Some 7) = str "two".
Proof.
  destruct (find_sound (str "one two two") (str "two") (Some 2) None 4 7)
    as [(H & _)|(_ & _ & _ & _ & H & _)].
  - vm_compute. reflexivity.
  - discriminate H.
  - exact H.
Defined.

(** ** Where a match of the escape-aware locator lies *)

Lemma startswith_0_fits (x c : pystr) : startswith x c 0 = true → len c <= len x.
Proof.
  unfold startswith, adjust_start. simpl.
  destruct (len x - len c <? 0) eqn:E; [discriminate|]. lia.
Qed.

Lemma len_slice_from (t : pystr) i :
  0 <= i <= len t → len (slice t (Some i) None) = len t - i.
Proof.
  intros Hi. rewrite slice_from_nonneg by lia. unfold len in *.
  rewrite length_drop. lia.
Qed.

(** The values [increment] takes: a positive one never leads past the
    end of the text. *)
Lemma fu_increment_cases text sub st :
  0 <= fu_i st < len text →
  let inc := fu_increment text sub st in
  inc = -1 ∨ inc = 0 ∨ (0 < inc ∧ fu_i st + inc <= len text).
Proof.
  intros Hi. unfold fu_increment.
  destruct (char_eq _ _ _ _); [right; right; lia|].
  destruct (_ && _); [by right; left|].
  destruct (bool_decide _); [|by left].
  destruct (List.find _ _) as [c|] eqn:Hc; [|by left].
  apply find_some in Hc as [_ Hc].
  apply startswith_0_fits in Hc. rewrite len_slice_from in Hc by lia.
  pose proof (len_nonneg c).
  destruct (Z.eq_dec (len c) 0); [right; left; lia|right; right; lia].
Qed.

Lemma fu_loop_bounds text sub start end_ :
  end_ <= len text →
  ∀ fuel st a b,
    0 <= start <= fu_i st →
    (fu_start_match st = -1 ∨ start <= fu_start_match st <= fu_i st) →
    fu_loop text fuel sub end_ st = (a, b) →
    (a = -1 ∧ b = -1) ∨ (start <= a ∧ a < b ∧ b <= len text ∧ a < end_).
Proof.
  intros Hend. induction fuel as [|fuel IH]; intros st a b Hi Hsm; simpl.
  { intros [= <- <-]. by left. }
  destruct (fu_i st <? end_) eqn:E; [|intros [= <- <-]; by left].
  pose proof (fu_increment_cases text sub st ltac:(lia)) as Hinc. simpl in Hinc.
  unfold fu_step. set (inc := fu_increment text sub st) in *.
  destruct (0 <? inc) eqn:E1.
  - destruct Hinc as [?|[?|[_ Hfit]]]; [lia|lia|].
    assert (start <= (if fu_start_match st =? -1 then fu_i st else fu_start_match st)
            <= fu_i st) as Hsm'.
    { destruct (fu_start_match st =? -1) eqn:E2; [lia|]. destruct Hsm; lia. }
    destruct (fu_index st + 1 =? len sub).
    + intros [= <- <-]. right. lia.
    + apply IH; simpl; [lia|right; lia].
  - destruct ((inc <? 0) && (0 <=? fu_start_match st)) eqn:E2.
    + apply andb_true_iff in E2 as [E2 E3].
      apply IH; simpl; [destruct Hsm; lia|by left].
    + apply IH; simpl; [lia|destruct Hsm; [by left|right; lia]].
Qed.

(** X2. A match of [__find_unescaped] lies in the text: for a non-empty
    target the function returns either [(-1, -1)] or a pair [(a, b)] with
    [start <= a < b <= len(text)] that begins before [end] (an escape
    sequence that begins before [end] may run past it). *)
Theorem find_unescaped_bounds (text sub : pystr) (start end_ : option Z) (a b : Z) :
  sub ≠ [] →
  __find_unescaped text sub start end_ = (a, b) →
  (a = -1 ∧ b = -1)
  ∨ (0 <= default 0 start ∧ default 0 start <= a ∧ a < b ∧ b <= len text
     ∧ a < default (len text) end_).
Proof.
  intros Hne. unfold __find_unescaped.
  set (s := default 0 start). set (e := default (len text) end_).
  destruct ((e <? s) || (s <? 0) || (len text <? e)) eqn:E.
  { intros [= <- <-]. by left. }
  apply orb_false_iff in E as [E E3]. apply orb_false_iff in E as [E1 E2].
  rewrite bool_decide_eq_false_2 by done.
  unfold fu_run. intros H.
  apply (fu_loop_bounds text sub s e) in H; simpl; [|lia|lia|by left].
  destruct H as [H|H]; [by left|right; lia].
Qed.

Lemma find_unescaped_bounds_witness :
  0 <= 1 ∧ 1 < 10 ∧ 10 <= len (str "a&lt;b&gt;").
Proof.
  destruct (find_unescaped_bounds (str "a&lt;b&gt;") (str "<b>") (Some 0) None 1 10)
    as [[H _]|(_ & H1 & H2 & H3 & _)].
  - discriminate.
  - vm_compute. reflexivity.
  - discriminate H.
  - exact (conj H1 (conj H2 H3)).
Defined.

(** ** The escape table, key by key *)

Lemma escape_keys_nonempty : Forall (λ k : list Z, k ≠ []) escape_table_keys.
Proof. apply (bool_decide_unpack _). by vm_compute. Qed.

(** No key of the table is the beginning of another key, so at most one
    key matches at a position and the order of the table has no effect. *)
Lemma escape_keys_prefix_free :
  Forall (λ k1 : list Z,
            Forall (λ k2 : list Z, k1 `prefix_of` k2 → k1 = k2) escape_table_keys)
         escape_table_keys.
Proof. apply (bool_decide_unpack _). by vm_compute. Qed.

Lemma startswith_0_take (x c : pystr) :
  startswith x c 0 = true ↔ take (length c) x = c.
Proof.
  unfold startswith, adjust_start, occurs_at. simpl. rewrite drop_0. split.
  - destruct (len x - len c <? 0); [discriminate|]. by rewrite bool_decide_eq_true.
  - intros H. pose proof (f_equal length H) as HL. rewrite length_take in HL.
    destruct (len x - len c <? 0) eqn:E; [unfold len in E; lia|].
    by rewrite bool_decide_eq_true.
Qed.

Lemma take_take_prefix (x a b : pystr) :
  take (length a) x = a → take (length b) x = b →
  (length a <= length b)%nat → a `prefix_of` b.
Proof.
  intros Ha Hb Hle. exists (drop (length a) b).
  assert (take (length a) b = a) as H.
  { transitivity (take (length a) (take (length b) x)); [by rewrite Hb|].
    rewrite take_take, Nat.min_l by lia. done. }
  etransitivity; [symmetry; apply (take_drop (length a))|]. by rewrite H.
Qed.

(** The key the loop picks at a position where a key of the table stands
    is that key. *)
Lemma escape_key_found (x k : pystr) :
  k ∈ escape_table_keys → take (length k) x = k →
  List.find (λ c, startswith x c 0) escape_table_keys = Some k.
Proof.
  intros Hk Hx.
  destruct (List.find _ _) as [k'|] eqn:Hf.
  - apply find_some in Hf as [Hin Hs]. apply list_elem_of_In in Hin.
    apply startswith_0_take in Hs. f_equal.
    pose proof escape_keys_prefix_free as Hpf.
    destruct (Nat.le_ge_cases (length k') (length k)).
    + apply (proj1 (Forall_forall _ _) (proj1 (Forall_forall _ _) Hpf k' Hin) k Hk).
      by apply (take_take_prefix x).
    + symmetry.
      apply (proj1 (Forall_forall _ _) (proj1 (Forall_forall _ _) Hpf k Hk) k' Hin).
      by apply (take_take_prefix x).
  - exfalso. apply list_elem_of_In in Hk.
    pose proof (find_none _ _ Hf k Hk) as Hn. simpl in Hn.
    apply startswith_0_take in Hx. congruence.
Qed.

(** X3. Escape-table completeness: for every entry [(k, v)] of the table
    and every text in which the key [k] stands at position [i], the
    escape-aware search for the decoded character [v] from [i] succeeds at
    [i]. It consumes the whole key, [(i, i + len(k))], unless the key
    itself begins with [v] (as [&amp;] does with [&]); then the literal
    comparison comes first and the match is that one character,
    [(i, i + 1)]. *)
Theorem escape_table_complete (text k : pystr) (v : Z) (i : Z) :
  (k, v) ∈ escape_table → 0 <= i →
  slice text (Some i) (Some (i + len k)) = k →
  __find_unescaped text [v] (Some i) None
  = if bool_decide (getitem text i = Some v) then (i, i + 1) else (i, i + len k).
Proof.
  intros Hkv Hi Hs.
  assert (k ∈ escape_table_keys) as Hk.
  { unfold escape_table_keys. apply list_elem_of_fmap. by exists (k, v). }
  assert (v ∈ escape_table_values) as Hv.
  { unfold escape_table_values. apply list_elem_of_fmap. by exists (k, v). }
  assert (k ≠ []) as Hne by apply (proj1 (Forall_forall _ _) escape_keys_nonempty k Hk).
  apply slice_occurrence in Hs; [|done|done].
  pose proof (occ_fits text k (Z.to_nat i) Hs Hne) as Hfit.
  pose proof (len_nonneg text) as Hn.
  assert (0 < len k) as Hkpos by (destruct k; [done|unfold len; simpl; lia]).
  assert (fu_increment text [v] (FuState i 0 (-1))
          = if bool_decide (getitem text i = Some v) then 1 else len k) as Hinc.
  { unfold fu_increment. cbn [fu_i fu_index fu_start_match].
    assert (char_eq text i [v] 0 = bool_decide (getitem text i = Some v)) as ->.
    { unfold char_eq. change (getitem [v] 0) with (Some v).
      destruct (getitem text i) as [c|]; [|by rewrite bool_decide_eq_false_2].
      destruct (Z.eqb_spec c v) as [->|Hc].
      - by rewrite bool_decide_eq_true_2.
      - rewrite bool_decide_eq_false_2; [done|congruence]. }
    destruct (bool_decide (getitem text i = Some v)); [done|].
    change (negb (-1 =? -1)) with false. cbn [andb].
    change (getitem [v] 0) with (Some v).
    rewrite bool_decide_eq_true_2 by (apply list_elem_of_fmap; by exists v).
    rewrite slice_from_nonneg by done.
    by rewrite (escape_key_found _ k Hk Hs). }
  unfold __find_unescaped.
  change (default 0 (Some i)) with i. change (default (len text) None) with (len text).
  destruct ((len text <? i) || (i <? 0) || (len text <? len text)) eqn:E.
  { unfold len in *. apply orb_true_iff in E as [E|E];
      [apply orb_true_iff in E as [E|E]|]; lia. }
  rewrite bool_decide_eq_false_2 by done.
  rewrite fu_run_unfold by (by apply fu_inv_init). cbn [fu_i].
  destruct (i <? len text) eqn:E1; [|unfold len in *; lia].
  unfold fu_step. rewrite Hinc. cbn [fu_i fu_index fu_start_match].
  change (0 + 1 =? len [v]) with true. change (-1 =? -1) with true. cbn iota.
  destruct (bool_decide (getitem text i = Some v)).
  - done.
  - destruct (0 <? len k) eqn:E2; [done|lia].
Qed.

Lemma escape_table_complete_witness :
  __find_unescaped (str "caf&eacute; &copy; 2019") [169] (Some 12) None = (12, 18).
Proof.
  apply (escape_table_complete (str "caf&eacute; &copy; 2019") (str "&copy;") 169 12).
  - apply (bool_decide_unpack _). vm_compute. exact I.
  - lia.
  - vm_compute. reflexivity.
Defined.

(** ** Carriage returns inside a match *)

Section MatchRuns.

Variables (text sub : pystr) (end_ : Z).

(** One iteration on a character that matches literally. *)
Lemma fu_run_literal_step pos index sm :
  fu_inv (FuState pos index sm) → pos < end_ →
  char_eq text pos sub index = true →
  fu_run text sub end_ (FuState pos index sm)
  = if index + 1 =? len sub then ((if sm =? -1 then pos else sm), pos + 1)
    else fu_run text sub end_ (FuState (pos + 1) (index + 1) (if sm =? -1 then pos else sm)).
Proof.
  intros Hinv Hlt Hc. rewrite fu_run_unfold by done. cbn [fu_i].
  destruct (pos <? end_) eqn:E; [|lia].
  unfold fu_step, fu_increment. cbn [fu_i fu_index fu_start_match]. rewrite Hc.
  change (0 <? 1) with true. cbn iota.
  destruct (index + 1 =? len sub); [done|].
  by replace (pos + 1 `max` 1) with (pos + 1) by lia.
Qed.

(** A run of [m] characters that match literally, inside a match that
    started at [a], with more of the target left after it. *)
Lemma fu_run_literal_run (a : Z) (m : nat) :
  ∀ pos index,
    0 <= a <= pos → pos + Z.of_nat m <= end_ →
    index + Z.of_nat m < len sub →
    (∀ j : nat, (j < m)%nat →
       char_eq text (pos + Z.of_nat j) sub (index + Z.of_nat j) = true) →
    fu_run text sub end_ (FuState pos index a)
    = fu_run text sub end_ (FuState (pos + Z.of_nat m) (index + Z.of_nat m) a).
Proof.
  induction m as [|m IH]; intros pos index Ha Hend Hidx Hc.
  - simpl. by rewrite !Z.add_0_r.
  - rewrite fu_run_literal_step.
    + destruct (index + 1 =? len sub) eqn:E; [lia|].
      destruct (a =? -1) eqn:E'; [lia|].
      rewrite (IH (pos + 1) (index + 1)); [f_equal; f_equal; lia|lia|lia|lia|].
      intros j Hj. specialize (Hc (S j) ltac:(lia)).
      by replace (pos + 1 + Z.of_nat j) with (pos + Z.of_nat (S j)) by lia;
         replace (index + 1 + Z.of_nat j) with (index + Z.of_nat (S j)) by lia.
    + split; simpl; [lia|right; lia].
    + lia.
    + specialize (Hc 0%nat ltac:(lia)). by rewrite !Z.add_0_r in Hc.
Qed.

(** The last [S m] characters of the target, matching literally. *)
Lemma fu_run_literal_end (a : Z) (m : nat) :
  ∀ pos index,
    0 <= a <= pos → pos + Z.of_nat (S m) <= end_ →
    index + Z.of_nat (S m) = len sub →
    (∀ j : nat, (j < S m)%nat →
       char_eq text (pos + Z.of_nat j) sub (index + Z.of_nat j) = true) →
    fu_run text sub end_ (FuState pos index a) = (a, pos + Z.of_nat (S m)).
Proof.
  induction m as [|m IH]; intros pos index Ha Hend Hidx Hc.
  all: rewrite fu_run_literal_step;
    [|split; simpl; [lia|right; lia] |lia
     |specialize (Hc 0%nat ltac:(lia)); by rewrite !Z.add_0_r in Hc].
  all: destruct (a =? -1) eqn:E'; [lia|].
  - destruct (index + 1 =? len sub) eqn:E; [|lia]. f_equal; lia.
  - destruct (index + 1 =? len sub) eqn:E; [lia|].
    rewrite (IH (pos + 1) (index + 1)); [f_equal; lia|lia|lia|lia|].
    intros j Hj. specialize (Hc (S j) ltac:(lia)).
    by replace (pos + 1 + Z.of_nat j) with (pos + Z.of_nat (S j)) by lia;
       replace (index + 1 + Z.of_nat j) with (index + Z.of_nat (S j)) by lia.
Qed.

(** A run of [n] carriage returns inside a match, where the target goes
    on with another character: each is passed over. *)
Lemma fu_run_returns (a index : Z) (n : nat) :
  ∀ pos,
    0 <= a <= pos → pos + Z.of_nat n <= end_ →
    (∀ j : nat, (j < n)%nat →
       getitem text (pos + Z.of_nat j) = Some CR) →
    (∃ c, getitem sub index = Some c ∧ c ≠ CR) →
    fu_run text sub end_ (FuState pos index a)
    = fu_run text sub end_ (FuState (pos + Z.of_nat n) index a).
Proof.
  induction n as [|n IH]; intros pos Ha Hend Hcr Hsub.
  - simpl. by rewrite Z.add_0_r.
  - rewrite fu_run_unfold by (split; simpl; [lia|right; lia]). cbn [fu_i].
    destruct (pos <? end_) eqn:E; [|lia].
    pose proof (Hcr 0%nat ltac:(lia)) as H0. rewrite Z.add_0_r in H0.
    destruct Hsub as (c & Hc & Hne).
    assert (fu_increment text sub (FuState pos index a) = 0) as Hinc.
    { unfold fu_increment. cbn [fu_i fu_index fu_start_match].
      unfold char_eq. rewrite H0, Hc. change (getitem [CR] 0) with (Some CR).
      cbv beta iota.
      destruct (Z.eqb_spec CR c) as [<-|_]; [done|].
      destruct (a =? -1) eqn:E'; [lia|]. by rewrite Z.eqb_refl. }
    unfold fu_step. rewrite Hinc. cbn [fu_i fu_index fu_start_match].
    change (0 <? 0) with false. change (0 <? 0) with false. cbn [andb].
    change ((0 <? 0) && (0 <=? a)) with false. cbn iota.
    replace (pos + 1 `max` 0) with (pos + 1) by lia.
    rewrite (IH (pos + 1)); [f_equal; f_equal; lia|lia|lia| |by exists c].
    intros j Hj. specialize (Hcr (S j) ltac:(lia)).
    by replace (pos + 1 + Z.of_nat j) with (pos + Z.of_nat (S j)) by lia.
Qed.

End MatchRuns.

Lemma char_eq_same (t u : pystr) p q c :
  getitem t p = Some c → getitem u q = Some c → char_eq t p u q = true.
Proof. unfold char_eq. intros -> ->. apply Z.eqb_refl. Qed.

(** X4. Carriage returns inside a match are passed over: when the text
    holds at [i] the first part [s1] of the target, then any number of
    carriage returns, then the rest [s2] of the target (which does not
    begin with a carriage return itself), the escape-aware search for
    [s1 + s2] from [i] returns the whole range, carriage returns
    included. *)
Theorem find_unescaped_skips_returns (text s1 s2 : pystr) (n : nat) (i : Z) :
  0 <= i → s1 ≠ [] → (∃ c, head s2 = Some c ∧ c ≠ CR) →
  slice text (Some i) (Some (i + len (s1 ++ replicate n CR ++ s2)))
  = s1 ++ replicate n CR ++ s2 →
  __find_unescaped text (s1 ++ s2) (Some i) None
  = (i, i + len (s1 ++ replicate n CR ++ s2)).
Proof.
  intros Hi Hs1 (c & Hc & Hcr) Hs.
  set (pat := s1 ++ replicate n CR ++ s2) in *.
  set (sub := s1 ++ s2).
  destruct s2 as [|c' s2']; [done|]. injection Hc as ->.
  destruct s1 as [|c1 s1']; [done|].
  assert (pat ≠ []) as Hpat by done.
  apply slice_occurrence in Hs; [|done|done].
  pose proof (occ_fits text pat (Z.to_nat i) Hs Hpat) as Hfit.
  assert (length pat = (S (length s1') + n + S (length s2'))%nat) as Hlen.
  { unfold pat. rewrite !length_app, length_replicate. simpl. lia. }
  assert (length sub = (S (length s1') + S (length s2'))%nat) as Hlsub.
  { unfold sub. rewrite length_app. simpl. lia. }
  assert (∀ k : nat, (k < length pat)%nat →
            getitem text (i + Z.of_nat k) = pat !! k) as Hget.
  { intros k Hk. rewrite getitem_nonneg by lia.
    replace (Z.to_nat (i + Z.of_nat k)) with (Z.to_nat i + k)%nat by lia.
    by apply occ_lookup. }
  assert (∀ k : nat, getitem sub (Z.of_nat k) = sub !! k) as Hgsub.
  { intros k. rewrite getitem_nonneg by lia. by rewrite Nat2Z.id. }
  (* the three parts of the pattern against the target *)
  assert (∀ k : nat, (k < S (length s1'))%nat →
            char_eq text (i + Z.of_nat k) sub (Z.of_nat k) = true) as H1.
  { intros k Hk.
    destruct (lookup_lt_is_Some_2 (c1 :: s1') k ltac:(simpl; lia)) as [x Hx].
    apply (char_eq_same _ _ _ _ x).
    - rewrite Hget by lia. unfold pat. by rewrite lookup_app_l by (simpl; lia).
    - rewrite Hgsub. unfold sub. by rewrite lookup_app_l by (simpl; lia). }
  assert (∀ k : nat, (k < n)%nat →
            getitem text (i + Z.of_nat (S (length s1')) + Z.of_nat k) = Some CR) as H2.
  { intros k Hk.
    replace (i + Z.of_nat (S (length s1')) + Z.of_nat k)
      with (i + Z.of_nat (S (length s1') + k)) by lia.
    rewrite Hget by lia. unfold pat.
    rewrite lookup_app_r by (simpl; lia).
    rewrite lookup_app_l by (rewrite length_replicate; simpl; lia).
    apply lookup_replicate_2. simpl. lia. }
  assert (∀ k : nat, (k < S (length s2'))%nat →
            char_eq text (i + Z.of_nat (S (length s1')) + Z.of_nat n + Z.of_nat k)
                    sub (Z.of_nat (S (length s1')) + Z.of_nat k) = true) as H3.
  { intros k Hk.
    destruct (lookup_lt_is_Some_2 (c :: s2') k ltac:(simpl; lia)) as [x Hx].
    apply (char_eq_same _ _ _ _ x).
    - replace (i + Z.of_nat (S (length s1')) + Z.of_nat n + Z.of_nat k)
        with (i + Z.of_nat (S (length s1') + n + k)) by lia.
      rewrite Hget by lia. unfold pat.
      rewrite lookup_app_r by (simpl; lia).
      rewrite lookup_app_r by (rewrite length_replicate; simpl; lia).
      rewrite length_replicate. rewrite <- Hx. f_equal. simpl. lia.
    - replace (Z.of_nat (S (length s1')) + Z.of_nat k)
        with (Z.of_nat (S (length s1') + k)) by lia.
      rewrite Hgsub. unfold sub. rewrite lookup_app_r by (simpl; lia).
      rewrite <- Hx. f_equal. simpl. lia. }
  assert (getitem sub (Z.of_nat (S (length s1'))) = Some c) as Hhead.
  { rewrite Hgsub. unfold sub. rewrite lookup_app_r by (simpl; lia).
    by replace (S (length s1') - length (c1 :: s1'))%nat with 0%nat by (simpl; lia). }
  (* the run of the loop *)
  unfold __find_unescaped.
  change (default 0 (Some i)) with i. change (default (len text) None) with (len text).
  fold sub.
  destruct ((len text <? i) || (i <? 0) || (len text <? len text)) eqn:E.
  { unfold len in *. apply orb_true_iff in E as [E|E];
      [apply orb_true_iff in E as [E|E]|]; lia. }
  rewrite bool_decide_eq_false_2 by done.
  rewrite fu_run_literal_step;
    [|by apply fu_inv_init|unfold len; lia
     |specialize (H1 0%nat ltac:(lia)); by rewrite Z.add_0_r in H1].
  change (-1 =? -1) with true. cbn iota.
  destruct (0 + 1 =? len sub) eqn:E1; [unfold len in E1; lia|].
  rewrite (fu_run_literal_run text sub (len text) i (length s1') (i + 1) (0 + 1));
    [|lia|unfold len; lia|unfold len; lia|].
  2: { intros j Hj. specialize (H1 (S j) ltac:(lia)).
       by replace (i + 1 + Z.of_nat j) with (i + Z.of_nat (S j)) by lia;
          replace (0 + 1 + Z.of_nat j) with (Z.of_nat (S j)) by lia. }
  replace (i + 1 + Z.of_nat (length s1')) with (i + Z.of_nat (S (length s1'))) by lia.
  replace (0 + 1 + Z.of_nat (length s1')) with (Z.of_nat (S (length s1'))) by lia.
  rewrite (fu_run_returns text sub (len text) i _ n);
    [|lia|unfold len; lia|done|by exists c].
  rewrite (fu_run_literal_end text sub (len text) i (length s2'));
    [|lia|unfold len; lia|unfold len; lia|done].
  f_equal. unfold len. lia.
Qed.

Lemma find_unescaped_skips_returns_witness :
  __find_unescaped (str "one" ++ [CR; NL] ++ str "two") (str "one" ++ [NL] ++ str "two")
    (Some 0) None
  = (0, 8).
Proof.
  apply (find_unescaped_skips_returns (str "one" ++ [CR; NL] ++ str "two")
           (str "one") ([NL] ++ str "two") 1 0).
  - lia.
  - discriminate.
  - exists NL. split; [reflexivity|discriminate].
  - vm_compute. reflexivity.
Defined.

(** ** Lines *)

Lemma is_line_of_unique (text : pystr) p sp1 sp2 :
  is_line_of text p sp1 → is_line_of text p sp2 → sp1 = sp2.
Proof.
  destruct sp1 as [s1 e1], sp2 as [s2 e2]. unfold is_line_of. simpl.
  intros (A1 & B1 & C1 & D1 & N1) (A2 & B2 & C2 & D2 & N2).
  assert (s1 = s2) as ->.
  { destruct (Z.lt_trichotomy s1 s2) as [H|[H|H]]; [|done|].
    - destruct C2 as [?|C2]; [lia|]. exfalso. apply (N1 (s2 - 1)); [lia|done].
    - destruct C1 as [?|C1]; [lia|]. exfalso. apply (N2 (s1 - 1)); [lia|done]. }
  assert (e1 = e2) as ->; [|done].
  destruct (Z.lt_trichotomy e1 e2) as [H|[H|H]]; [|done|].
  - destruct D1 as [?|D1]; [lia|]. exfalso. apply (N2 e1); [lia|done].
  - destruct D2 as [?|D2]; [lia|]. exfalso. apply (N1 e2); [lia|done].
Qed.

(** X5. [__get_line] gives the same span for every position of a line:
    if [(s, e)] is the span it returns for some integer [index], it
    returns [(s, e)] again for every [k] with [s <= k <= e], the two ends
    included. The span lies in the text and holds no newline. *)
Theorem get_line_same_line (text : pystr) (index k : Z) :
  (__get_line text index).1 <= k <= (__get_line text index).2 →
  __get_line text k = __get_line text index
  ∧ 0 <= (__get_line text index).1 ∧ (__get_line text index).2 <= len text
  ∧ ∀ j, (__get_line text index).1 <= j < (__get_line text index).2 →
         getitem text j ≠ Some NL.
Proof.
  intros Hk.
  destruct (get_line_bounds text index) as (H1 & H2 & H3 & H4 & _ & H6).
  split; [|split; [lia|split; [lia|done]]].
  apply (is_line_of_unique text k).
  - apply get_line_spec. lia.
  - unfold is_line_of. split; [lia|]. split; [lia|]. done.
Qed.

Lemma get_line_same_line_witness :
  __get_line (str "ab" ++ [NL] ++ str "cde" ++ [NL] ++ str "f") 3
  = __get_line (str "ab" ++ [NL] ++ str "cde" ++ [NL] ++ str "f") 5.
Proof.
  apply (get_line_same_line (str "ab" ++ [NL] ++ str "cde" ++ [NL] ++ str "f") 5 3).
  vm_compute. split; discriminate.
Defined.

(** ** Whitespace entries *)

Lemma walk_spaces_finds_run (text : pystr) (index : Z) (skipped run rest : pystr) (c : Z) :
  0 <= index →
  slice text (Some index) None = skipped ++ run ++ c :: rest →
  forallb (λ c, negb (isspace c)) skipped = true →
  run ≠ [] → forallb isspace run = true → isspace c = false →
  walk_spaces text index
  = Some (index + len skipped, index + len skipped + len run, ∅).
Proof.
  intros Hi Hs Hskip Hne Hrun Hc. rewrite slice_from_nonneg in Hs by done.
  rewrite <- (Z2Nat.id index) at 1 by done. set (k := Z.to_nat index) in *.
  assert (drop (k + length skipped) text = run ++ c :: rest) as Hd.
  { rewrite <- drop_drop, Hs. by rewrite drop_app_length. }
  assert (drop (k + length skipped + length run) text = c :: rest) as Hd'.
  { rewrite <- drop_drop, Hd. by rewrite drop_app_length. }
  unfold walk_spaces.
  rewrite (scan_forward_run text _ skipped _ k Hs Hskip).
  destruct run as [|w run'] eqn:Hr; [done|]. rewrite <- Hr in *.
  assert (isspace w = true) as Hw.
  { rewrite Hr in Hrun. simpl in Hrun. by apply andb_true_iff in Hrun as [? _]. }
  assert (drop (k + length skipped) text = w :: (run' ++ c :: rest)) as Hd2
    by (by rewrite Hd, Hr).
  assert (negb (isspace w) = false) as Hp by (by rewrite Hw).
  rewrite (scan_forward_stop text (λ c, negb (isspace c)) _ w _ Hd2 Hp).
  simpl.
  rewrite (scan_forward_run text isspace run (c :: rest) (k + length skipped) Hd Hrun).
  rewrite (scan_forward_stop text isspace _ c rest Hd' Hc). simpl.
  replace (Z.of_nat (k + length skipped)) with (index + len skipped)
    by (subst k; unfold len; lia).
  replace (Z.of_nat (k + length skipped + length run))
    with (index + len skipped + len run) by (subst k; unfold len; lia).
  done.
Qed.

(** X6. A [Space], [SoftBreak] or [LineBreak] entry is recorded as the
    first run of whitespace at or after the cursor: when [text[index:]]
    (with [0 <= index]) is some characters without whitespace, then a
    non-empty run of whitespace, then a character that is not whitespace,
    [walk_one] appends and returns the span of exactly that run, with no
    extras and no warning. *)
Theorem whitespace_entry_recorded (text : pystr) (index : Z)
    (skipped run rest : pystr) (c : Z) (entry : node) (st : mapper_state) :
  entry = Space ∨ entry = SoftBreak ∨ entry = LineBreak →
  0 <= index →
  slice text (Some index) None = skipped ++ run ++ c :: rest →
  forallb (λ c, negb (isspace c)) skipped = true →
  run ≠ [] → forallb isspace run = true → isspace c = false →
  let r := mkResult (node_tag entry) (index + len skipped)
             (index + len skipped + len run) ∅ in
  walk_one text index entry st
  = Done (Some r) (mkState (results st ++ [r]) (warnings st)).
Proof.
  intros Hentry Hi Hs Hskip Hne Hrun Hc r.
  pose proof (walk_spaces_finds_run text index skipped run rest c
                Hi Hs Hskip Hne Hrun Hc) as Hw.
  assert (0 < len run) as Hpos by (destruct run; [done|unfold len; simpl; lia]).
  pose proof (len_nonneg skipped) as Hsk.
  assert (save text (node_tag entry) (index + len skipped)
            (index + len skipped + len run) ∅ st
          = Done (Some r) (mkState (results st ++ [r]) (warnings st))) as Hsave.
  { unfold save.
    destruct ((index + len skipped <? 0) || (index + len skipped + len run <? 0)
              || (index + len skipped + len run <=? index + len skipped)) eqn:E.
    { apply orb_true_iff in E as [E|E]; [apply orb_true_iff in E as [E|E]|]; lia. }
    by destruct Hentry as [-> | [-> | ->]]. }
  destruct Hentry as [-> | [-> | ->]]; simpl; unfold walk_one_body; simpl;
    unfold mbind, M_bind, lift; rewrite Hw; exact Hsave.
Qed.

Lemma whitespace_entry_recorded_witness :
  walk_one (str "one  two") 1 Space (mkState [] [])
  = Done (Some (mkResult "Space" 3 5 ∅)) (mkState [mkResult "Space" 3 5 ∅] []).
Proof.
  apply (whitespace_entry_recorded (str "one  two") 1 (str "ne") (str "  ") (str "wo") 116
           Space (mkState [] [])).
  - by left.
  - lia.
  - reflexivity.
  - reflexivity.
  - discriminate.
  - reflexivity.
  - reflexivity.
Defined.

(** ** After a soft break without a newline *)

(** X7. Once the accumulation of [walk_multiple] holds a [SoftBreak]
    result whose span of text has no newline, every later result is
    unordered: whatever the remaining entries yield, the loop returns the
    [start] and [end] it had at that point. *)
Theorem soft_break_freezes_span (text : pystr) (rec : Z → node → M (option Result))
    (prev : Result) (entries : list node) :
  res_type prev = "SoftBreak"%string →
  NL ∉ slice text (Some (res_start prev)) (Some (res_end prev)) →
  ∀ rs i start end_ st p st',
    prev ∈ rs →
    walk_multiple_loop text rec entries i start end_ rs st = Done p st' →
    p = (start, end_).
Proof.
  intros Ht Hnl. induction entries as [|entry entries IH];
    intros rs i start end_ st p st' Hin H.
  - simpl in H. unfold mret, M_ret in H. by injection H as <- _.
  - cbn [walk_multiple_loop] in H.
    apply bind_Done in H as ([r|] & st1 & _ & H).
    + apply bind_Done in H as (b & st2 & Hb & H).
      apply lift_Done in Hb as [Hb ->].
      destruct (is_last_result_ordered_spec text rs r) as (b' & Hb' & Hiff).
      rewrite Hb in Hb'. injection Hb' as <-.
      assert (b = false) as ->.
      { apply Hiff. right; right. by exists prev. }
      apply (IH (rs ++ [r]) (i + 1) start end_ st1 p st'); [|done].
      apply elem_of_app. by left.
    + by apply (IH rs (i + 1) start end_ st1 p st').
Qed.

Lemma soft_break_freezes_span_witness :
  walk_multiple_loop (str "a b c") (walk_one (str "a b c"))
    [Str (str "b"); Space; Str (str "c")] 1 0 1
    [mkResult "SoftBreak" 1 2 ∅] (mkState [] [])
  = Done (0, 1)
      (mkState [mkResult "Str" 2 3 ∅; mkResult "Space" 1 2 ∅; mkResult "Str" 4 5 ∅] []).
Proof.
  assert (∃ p st',
            walk_multiple_loop (str "a b c") (walk_one (str "a b c"))
              [Str (str "b"); Space; Str (str "c")] 1 0 1
              [mkResult "SoftBreak" 1 2 ∅] (mkState [] [])
            = Done p st'
            ∧ st' = mkState [mkResult "Str" 2 3 ∅; mkResult "Space" 1 2 ∅;
                             mkResult "Str" 4 5 ∅] [])
    as (p & st' & H & ->) by (eexists _, _; split; vm_compute; reflexivity).
  rewrite H. f_equal.
  apply (soft_break_freezes_span (str "a b c") (walk_one (str "a b c"))
           (mkResult "SoftBreak" 1 2 ∅) [Str (str "b"); Space; Str (str "c")]
           eq_refl
           ltac:(vm_compute; intros Hc; inversion Hc as [|? ? ? Hc']; inversion Hc')
           _ 1 0 1 _ _ _ (list_elem_of_here _ _) H).
Defined.

(** ** Entries that span nothing *)

(** X8. A [Null] block, and a [Plain], [Para], [BlockQuote], [LineBlock],
    [OrderedList], [BulletList], [DefinitionList], [Div] or [Span] without
    entries, is never recorded: its walker returns the empty span
    [(index, index)], so at every cursor [walk_one] returns [None], leaves
    the result list as it is and emits one "Invalid result" warning for
    that span. *)
Theorem empty_entry_dropped (text : pystr) (index : Z) (entry : node) (st : mapper_state) :
  spans_nothing entry = true →
  ∃ extras,
    walk_one text index entry st
    = Done None
        (mkState (results st)
           (warnings st ++ [InvalidResult (mkResult (node_tag entry) index index extras)])).
Proof.
  intros H.
  assert (∀ t x, save text t index index x st
                 = Done None (mkState (results st)
                                (warnings st ++ [InvalidResult (mkResult t index index x)])))
    as Hsave.
  { intros t x. unfold save. rewrite Z.leb_refl, orb_true_r. done. }
  destruct entry; simpl in H; try discriminate H.
  all: try match type of H with
           | (match ?l with _ => _ end) = true => destruct l; [|discriminate H]
           end.
  all: eexists; simpl; unfold walk_one_body; simpl;
    unfold mbind, M_bind, mret, M_ret; simpl;
    rewrite ?Z.sub_0_r, ?Z.add_0_r; apply Hsave.
Qed.

Lemma empty_entry_dropped_witness :
  ∃ extras,
    walk_one (str "some text") 4 Null (mkState [] [])
    = Done None (mkState [] [InvalidResult (mkResult "Null" 4 4 extras)]).
Proof.
  apply (empty_entry_dropped (str "some text") 4 Null (mkState [] [])). reflexivity.
Defined.

(** ** What is recorded, by kind *)

Lemma scan_loop_forward_ge text guard p off fuel j j' :
  scan_loop text fuel guard p off 1 j = Some j' → j <= j'.
Proof.
  revert j. induction fuel as [|fuel IH]; intros j; simpl; [discriminate|].
  destruct (guard j); [|intros [= <-]; lia].
  destruct (getitem text (j + off)) as [c|]; [|discriminate]. simpl.
  destruct (p c); [|intros [= <-]; lia].
  intros H. apply IH in H. lia.
Qed.

(** The start of the line of [s] is not after the start of the line of a
    later position [e]. *)
Lemma get_line_start_mono text s e :
  0 <= s <= e → (__get_line text s).1 <= (__get_line text e).1.
Proof.
  intros Hse.
  destruct (get_line_bounds text s) as (A1 & _ & A3 & _).
  destruct (get_line_bounds text e) as (B1 & _ & _ & _ & B5 & _).
  assert (adjust_end (len text) s <= adjust_end (len text) e) as Hhi.
  { unfold adjust_end. pose proof (len_nonneg text).
    destruct (len text <? s) eqn:?, (len text <? e) eqn:?,
             (s <? 0) eqn:?, (e <? 0) eqn:?; lia. }
  destruct (Z.le_gt_cases (__get_line text s).1 (__get_line text e).1) as [|Hgt]; [done|].
  destruct A3 as [?|Hnl]; [lia|].
  exfalso. apply (B5 ((__get_line text s).1 - 1)); [lia|done].
Qed.

Lemma save_recorded_ok text t start end_ extras :
  appends (recorded_ok text) (save text t start end_ extras).
Proof.
  intros st [r|] st' H;
    [|apply save_None in H; exists []; split; [by rewrite app_nil_r|constructor]].
  pose proof (save_Some _ _ _ _ _ _ _ _ H) as (Ht & Hres & _ & Hns).
  exists [r]. split; [done|]. apply Forall_singleton.
  unfold save in H.
  destruct ((start <? 0) || (end_ <? 0) || (end_ <=? start)) eqn:E.
  { apply bind_Done in H as (? & ? & _ & H). discriminate. }
  apply orb_false_iff in E as [E E3]. apply orb_false_iff in E as [E1 E2].
  apply bind_Done in H as ([s e] & st1 & Htrim & H).
  apply bind_Done in H as ([] & st2 & _ & H).
  injection H as Hr _.
  destruct (decide (t ∈ non_spaced_types)) as [Hin|Hnin].
  - pose proof (non_spaced_not_paragraph t Hin) as Hnp.
    rewrite (bool_decide_eq_true_2 _ Hin) in Htrim.
    rewrite (bool_decide_eq_false_2 _ Hnp) in Hr.
    apply bind_Done in Htrim as (s' & st3 & Hf & Htrim).
    apply bind_Done in Htrim as (e' & st4 & Hb & Htrim).
    apply lift_Done in Hf as [Hf _]. apply lift_Done in Hb as [Hb _].
    injection Htrim as -> -> _.
    apply scan_loop_forward_ge in Hf.
    destruct (Hns Hin) as ((c1 & G1 & _) & (c2 & G2 & _) & _).
    apply getitem_Some_range in G1, G2.
    subst r. unfold recorded_ok. simpl in *.
    split; [lia|]. split; [done|]. split; [lia|]. done.
  - rewrite (bool_decide_eq_false_2 _ Hnin) in Htrim.
    unfold mret, M_ret in Htrim. injection Htrim as <- <- _.
    destruct (decide (t ∈ paragraph_types)) as [Hp|Hnp].
    + rewrite (bool_decide_eq_true_2 _ Hp) in Hr.
      assert (r = mkResult t (__get_line text start).1 (__get_line text end_).2
                    (<["s"%string := VInt start]> (<["e"%string := VInt end_]> extras)))
        as -> by (by rewrite <- Hr).
      clear Hr Ht Hres Hns.
      unfold recorded_ok, whole_lines. cbn [res_start res_end res_type res_extras].
      destruct (get_line_bounds text start) as (A1 & _ & A3 & _).
      destruct (get_line_bounds text end_) as (_ & B2 & _ & B4 & _).
      pose proof (get_line_start_mono text start end_ ltac:(lia)) as Hmono.
      assert (adjust_end (len text) start <= start) as Hhi.
      { unfold adjust_end. destruct (len text <? start) eqn:?, (start <? 0) eqn:?; lia. }
      split; [lia|].
      split; [|split; [intros Hc; by destruct (Hnin Hc)|intros Hc; by destruct (Hc Hp)]].
      intros _. split; [lia|]. split; [done|]. split; [done|].
      exists start, end_. rewrite lookup_insert_eq.
      rewrite lookup_insert_ne by done. rewrite lookup_insert_eq.
      split; [done|]. split; [done|]. split; [lia|]. split; [lia|].
      intros Hle. by destruct (get_line_spec text end_ ltac:(lia)) as (_ & [? _] & _).
    + rewrite (bool_decide_eq_false_2 _ Hnp) in Hr. subst r.
      unfold recorded_ok. simpl.
      split; [lia|]. split; [done|]. split; [done|]. intros _ _. lia.
Qed.

(** Every result of a walk went through [save]. *)
Lemma walk_results text (P : Result → Prop) blocks rs st :
  (∀ t start end_ extras, appends P (save text t start end_ extras)) →
  walk text blocks = Done rs st → Forall P rs.
Proof.
  intros Hsave H. unfold walk in H.
  destruct (walk_multiple text (walk_one text) 0 blocks 0 (mkState [] [])) as [a s|e] eqn:Hw;
    [|discriminate].
  injection H as <- <-.
  apply (walk_multiple_appends text P) in Hw as (new & Hnew & Hall).
  - simpl in Hnew. by rewrite Hnew.
  - apply Forall_forall. intros entry _ index. by apply walk_one_appends.
Qed.

(** X9. Every result of a paragraph type that a walk records spans whole
    lines inside the text: [0 <= start <= end <= len(text)], [start] is 0
    or follows a newline, [end] is the end of the text or stands on a
    newline; and its extras hold under ["s"] and ["e"] the bounds before
    the widening, with [0 <= s < e], [start <= s] and, when [e] is inside
    the text, [e <= end]. *)
Theorem paragraph_results_whole_lines (text : pystr) (blocks : list node)
    (rs : list Result) (st : mapper_state) (r : Result) :
  walk text blocks = Done rs st → r ∈ rs → res_type r ∈ paragraph_types →
  0 <= res_start r ∧ whole_lines text r.
Proof.
  intros H Hr Hp.
  pose proof (walk_results text (recorded_ok text) blocks rs st
                (save_recorded_ok text) H) as Hall.
  destruct (proj1 (Forall_forall _ _) Hall r Hr) as (H0 & Hpar & _). auto.
Qed.

Lemma paragraph_results_whole_lines_witness :
  whole_lines (str "a b" ++ [NL] ++ str " c d " ++ [NL] ++ str "e")
    (mkResult "Para" 4 9 {[ "s"%string := VInt 5; "e"%string := VInt 8 ]}).
Proof.
  eapply proj2.
  eapply (paragraph_results_whole_lines
            (str "a b" ++ [NL] ++ str " c d " ++ [NL] ++ str "e")
            [Para [Str (str "c"); Space; Str (str "d")]]).
  - vm_compute. reflexivity.
  - do 3 apply list_elem_of_further. apply list_elem_of_here.
  - apply list_elem_of_here.
Defined.

(** X10. Every result a walk records starts at a non-negative offset. A
    result of a non-spaced type starts inside the text and does not end
    after it; a result that is neither trimmed nor widened ([Plain],
    [RawBlock], [Space], [SoftBreak], [LineBreak]) has [start < end]. *)
Theorem recorded_span_bounds (text : pystr) (blocks : list node)
    (rs : list Result) (st : mapper_state) (r : Result) :
  walk text blocks = Done rs st → r ∈ rs →
  0 <= res_start r
  ∧ (res_type r ∈ non_spaced_types → res_start r < len text ∧ res_end r <= len text)
  ∧ (res_type r ∉ paragraph_types → res_type r ∉ non_spaced_types →
     res_start r < res_end r).
Proof.
  intros H Hr.
  pose proof (walk_results text (recorded_ok text) blocks rs st
                (save_recorded_ok text) H) as Hall.
  destruct (proj1 (Forall_forall _ _) Hall r Hr) as (H0 & _ & Hns & Hother). auto.
Qed.

Lemma recorded_span_bounds_witness :
  0 <= res_start (mkResult "Space" 1 2 ∅)
  ∧ res_start (mkResult "Space" 1 2 ∅) < res_end (mkResult "Space" 1 2 ∅).
Proof.
  edestruct (recorded_span_bounds (str "a b") [Plain [Str (str "a"); Space; Str (str "b")]])
    as (H0 & _ & H1).
  - vm_compute. reflexivity.
  - apply list_elem_of_further, list_elem_of_here.
  - split; [exact H0|]. apply H1.
    + apply (bool_decide_unpack _). vm_compute. exact I.
    + apply (bool_decide_unpack _). vm_compute. exact I.
Defined.

(** ** Trimming a span that holds a visible character *)

Lemma getitem_inside (t : pystr) k : 0 <= k < len t → ∃ c, getitem t k = Some c.
Proof.
  intros Hk. rewrite getitem_nonneg by lia.
  apply lookup_lt_is_Some_2. unfold len in Hk. lia.
Qed.

Section Reach.

Variables (text : pystr) (p : Z → bool) (q c : Z).
Hypothesis Hq : getitem text q = Some c.
Hypothesis Hc : p c = false.

(** A forward scan from [j <= q] stops at the first character at or
    after [j] that fails the test. *)
Lemma scan_forward_reach (n : nat) :
  ∀ j, 0 <= j → q - j = Z.of_nat n →
    ∃ j', scan text always p 0 1 j = Some j' ∧ j <= j' <= q
          ∧ ∀ k, j <= k < j' → ∃ c', getitem text k = Some c' ∧ p c' = true.
Proof using Hq Hc.
  pose proof (getitem_Some_range _ _ _ Hq) as Hr.
  induction n as [|n IH]; intros j Hj Hn; rewrite scan_unfold by auto; simpl;
    rewrite Z.add_0_r.
  - replace j with q by lia. rewrite Hq. simpl. rewrite Hc.
    exists q. split; [done|]. split; [lia|]. intros k Hk. lia.
  - destruct (getitem_inside text j ltac:(lia)) as [c' Hc']. rewrite Hc'. simpl.
    destruct (p c') eqn:Hp.
    + destruct (IH (j + 1) ltac:(lia) ltac:(lia)) as (j' & Hs & Hb & Hall).
      exists j'. split; [done|]. split; [lia|].
      intros k Hk. destruct (Z.eq_dec k j) as [->|]; [eauto|]. apply Hall. lia.
    + exists j. split; [done|]. split; [lia|]. intros k Hk. lia.
Qed.

(** A backward scan from [j > q] stops just after the last character
    before [j] that fails the test. *)
Lemma scan_backward_reach (n : nat) :
  ∀ j, 0 <= q → j <= len text → j - 1 - q = Z.of_nat n →
    ∃ j', scan text always p (-1) (-1) j = Some j' ∧ q < j' <= j
          ∧ ∀ k, j' <= k < j → ∃ c', getitem text k = Some c' ∧ p c' = true.
Proof using Hq Hc.
  induction n as [|n IH]; intros j H0 Hj Hn; rewrite scan_unfold by auto; simpl.
  - replace (j + -1) with q by lia. rewrite Hq. simpl. rewrite Hc.
    exists j. split; [done|]. split; [lia|]. intros k Hk. lia.
  - destruct (getitem_inside text (j + -1) ltac:(lia)) as [c' Hc']. rewrite Hc'. simpl.
    destruct (p c') eqn:Hp.
    + destruct (IH (j + -1) ltac:(lia) ltac:(lia) ltac:(lia)) as (j' & Hs & Hb & Hall).
      exists j'. split; [done|]. split; [lia|].
      intros k Hk. destruct (Z.eq_dec k (j + -1)) as [->|]; [eauto|]. apply Hall. lia.
    + exists j. split; [done|]. split; [lia|]. intros k Hk. lia.
Qed.

End Reach.

(** X11. Trimming keeps a span that holds a visible character: for a
    non-spaced type and a span [0 <= start < end <= len(text)] with a
    character that is not whitespace somewhere in it, the second half of
    [walk_one] raises nothing and emits no warning; it appends and returns
    a result [r] with [start <= r.start < r.end <= end], the extras
    unchanged, and only whitespace in the two parts cut off. *)
Theorem trim_keeps_visible (text : pystr) (t : string) (start end_ : Z)
    (extras : gmap string value) (st : mapper_state) (q c : Z) :
  t ∈ non_spaced_types →
  0 <= start → end_ <= len text →
  start <= q < end_ → getitem text q = Some c → isspace c = false →
  ∃ r, save text t start end_ extras st
       = Done (Some r) (mkState (results st ++ [r]) (warnings st))
       ∧ res_type r = t ∧ res_extras r = extras
       ∧ start <= res_start r ∧ res_start r <= q ∧ q < res_end r ∧ res_end r <= end_
       ∧ all_space text start (res_start r) ∧ all_space text (res_end r) end_.
Proof.
  intros Hns H0 Hend Hq Hget Hc.
  destruct (scan_forward_reach text isspace q c Hget Hc (Z.to_nat (q - start)) start
              ltac:(lia) ltac:(lia)) as (s' & Hf & Hfb & Hfa).
  destruct (scan_backward_reach text isspace q c Hget Hc (Z.to_nat (end_ - 1 - q)) end_
              ltac:(lia) ltac:(lia) ltac:(lia)) as (e' & Hb & Hbb & Hba).
  exists (mkResult t s' e' extras). simpl.
  split; [|split; [done|split; [done|split; [lia|split; [lia|split; [lia|split; [lia|done]]]]]]].
  unfold save.
  destruct ((start <? 0) || (end_ <? 0) || (end_ <=? start)) eqn:E.
  { apply orb_true_iff in E as [E|E]; [apply orb_true_iff in E as [E|E]|]; lia. }
  rewrite (bool_decide_eq_true_2 _ Hns).
  rewrite (bool_decide_eq_false_2 _ (non_spaced_not_paragraph t Hns)).
  unfold skip_spaces_forward, skip_spaces_backward.
  unfold mbind, M_bind, lift. rewrite Hf, Hb. done.
Qed.

Lemma trim_keeps_visible_witness :
  ∃ r, save (str "a  bc  d") "Emph" 1 7 ∅ (mkState [] [])
       = Done (Some r) (mkState ([] ++ [r]) [])
       ∧ res_type r = "Emph"%string ∧ res_extras r = ∅
       ∧ 1 <= res_start r ∧ res_start r <= 4 ∧ 4 < res_end r ∧ res_end r <= 7
       ∧ all_space (str "a  bc  d") 1 (res_start r)
       ∧ all_space (str "a  bc  d") (res_end r) 7.
Proof.
  apply (trim_keeps_visible (str "a  bc  d") "Emph" 1 7 ∅ (mkState [] []) 4 99).
  - apply (bool_decide_unpack _). vm_compute. exact I.
  - lia.
  - vm_compute. discriminate.
  - lia.
  - reflexivity.
  - reflexivity.
Defined.

(** ** A literal run that stands at the cursor *)

Lemma startswith_occurrence (text s : pystr) (i : nat) :
  take (length s) (drop i text) = s → s ≠ [] →
  startswith text s (Z.of_nat i) = true.
Proof.
  intros Hocc Hne. pose proof (occ_fits text s i Hocc Hne) as Hfit.
  unfold startswith, adjust_start.
  destruct (Z.of_nat i <? 0) eqn:E; [lia|].
  destruct (len text - len s <? Z.of_nat i) eqn:E'; [unfold len in E'; lia|].
  unfold occurs_at. rewrite Nat2Z.id. by rewrite bool_decide_eq_true.
Qed.

(** X12. A [Str] or [RawInline] whose string stands in the text exactly
    at the cursor, and neither begins nor ends with whitespace, is
    recorded in place: [walk_one] appends and returns the result
    [(index, index + len(string))] with no extras, and emits no warning. *)
Theorem literal_recorded_in_place (text s : pystr) (index : Z) (entry : node)
    (st : mapper_state) :
  entry = Str s ∨ (∃ format, entry = RawInline format s) →
  0 <= index → s ≠ [] →
  slice text (Some index) (Some (index + len s)) = s →
  (∃ c, head s = Some c ∧ isspace c = false) →
  (∃ c, last s = Some c ∧ isspace c = false) →
  walk_one text index entry st
  = Done (Some (mkResult (node_tag entry) index (index + len s) ∅))
      (mkState (results st ++ [mkResult (node_tag entry) index (index + len s) ∅])
         (warnings st)).
Proof.
  intros Hentry Hi Hne Hs (c1 & Hh & Hc1) (c2 & Hl & Hc2).
  apply slice_occurrence in Hs; [|done|done].
  pose proof (occ_fits text s (Z.to_nat index) Hs Hne) as Hfit.
  assert (0 < length s)%nat as Hpos by (destruct s; [done|simpl; lia]).
  assert (startswith text s index = true) as Hsw.
  { rewrite <- (Z2Nat.id index) by done. by apply startswith_occurrence. }
  assert (walk_str text index s = (index, index + len s, ∅)) as Hw.
  { unfold walk_str. by rewrite Hsw. }
  assert (getitem text index = Some c1) as G1.
  { rewrite getitem_nonneg by done.
    pose proof (occ_lookup text s (Z.to_nat index) Hs 0 Hpos) as H.
    rewrite Nat.add_0_r in H. rewrite H. by rewrite <- head_lookup. }
  assert (getitem text (index + len s + -1) = Some c2) as G2.
  { rewrite getitem_nonneg by (unfold len; lia).
    pose proof (occ_lookup text s (Z.to_nat index) Hs (length s - 1) ltac:(lia)) as H.
    replace (Z.to_nat (index + len s + -1)) with (Z.to_nat index + (length s - 1))%nat
      by (unfold len; lia).
    rewrite H. rewrite last_lookup in Hl.
    by replace (length s - 1)%nat with (pred (length s)) by lia. }
  assert (∀ t, t ∈ non_spaced_types →
            save text t index (index + len s) ∅ st
            = Done (Some (mkResult t index (index + len s) ∅))
                (mkState (results st ++ [mkResult t index (index + len s) ∅])
                   (warnings st))) as Hsave.
  { intros t Ht. unfold save.
    destruct ((index <? 0) || (index + len s <? 0) || (index + len s <=? index)) eqn:E.
    { unfold len in E. apply orb_true_iff in E as [E|E];
        [apply orb_true_iff in E as [E|E]|]; lia. }
    rewrite (bool_decide_eq_true_2 _ Ht).
    rewrite (bool_decide_eq_false_2 _ (non_spaced_not_paragraph t Ht)).
    unfold skip_spaces_forward, skip_spaces_backward.
    rewrite (scan_unfold text always isspace 0 1 index) by auto.
    rewrite (scan_unfold text always isspace (-1) (-1) (index + len s)) by auto.
    simpl. rewrite Z.add_0_r, G1, G2. simpl.
    rewrite Hc1, Hc2. done. }
  destruct Hentry as [->|[format ->]]; simpl; unfold walk_one_body; simpl;
    unfold mbind at 1, M_bind at 1, mret, M_ret; rewrite Hw; apply Hsave;
    apply (bool_decide_unpack _); vm_compute; exact I.
Qed.

Lemma literal_recorded_in_place_witness :
  walk_one (str "Hello **world**!") 8 (Str (str "world")) (mkState [] [])
  = Done (Some (mkResult "Str" 8 13 ∅)) (mkState [mkResult "Str" 8 13 ∅] []).
Proof.
  apply (literal_recorded_in_place (str "Hello **world**!") (str "world") 8
           (Str (str "world")) (mkState [] [])).
  - by left.
  - lia.
  - discriminate.
  - reflexivity.
  - exists 119. split; reflexivity.
  - exists 100. split; reflexivity.
Defined.

(** ** What [walk_one] returns and what it leaves behind *)

Lemma Forall_sub_all (Q : node → Prop) entry : (∀ e, Q e) → Forall_sub Q entry.
Proof.
  intros H.
  assert (∀ l : list node, Forall Q l) as H1 by (intros l; by apply Forall_forall).
  assert (∀ l : list (list node), Forall (Forall Q) l) as H2
    by (intros l; by apply Forall_forall).
  assert (∀ l : list (list (list node)), Forall (Forall (Forall Q)) l) as H3
    by (intros l; by apply Forall_forall).
  destruct entry; simpl; try done.
  apply Forall_forall. intros p _. done.
Qed.

Lemma save_None_warns text t start end_ extras st st' :
  save text t start end_ extras st = Done None st' →
  st' = mkState (results st)
          (warnings st ++ [InvalidResult (mkResult t start end_ extras)]).
Proof.
  unfold save.
  destruct ((start <? 0) || (end_ <? 0) || (end_ <=? start)).
  - intros H. apply bind_Done in H as ([] & st1 & Hw & H).
    unfold warn in Hw. injection Hw as <-.
    unfold mret, M_ret in H. by injection H as <-.
  - intros H. apply bind_Done in H as ([s e] & st1 & _ & H).
    apply bind_Done in H as ([] & st2 & _ & H). discriminate.
Qed.

Lemma walk_fn_appends_only text index entry :
  appends (λ _, True) (walk_fn text (walk_one text) index entry).
Proof.
  apply walk_fn_appends. apply Forall_sub_all. intros e idx.
  apply walk_one_appends. intros t s e' x st a st' H.
  destruct (save_trim_stable text t s e' x st a st' H) as (new & Hn & _).
  exists new. split; [done|]. by apply Forall_forall.
Qed.

(** X13. What [walk_one] returns is what it did. For a tag that is not
    in [self.types] it returns [None], with the results untouched and one
    "Unknown type" warning. For a known tag, let [below] be the results
    that the walker of the entry has appended while it walked the entries
    below, up to the moment it returned its span [(s, e)]. When [walk_one]
    returns a result, that result carries the tag of the entry and the
    result list is the earlier results, then [below], then the result
    itself, with no new warning. When it returns [None], the result list
    is the earlier results and [below], nothing more: it has added no
    result of its own; the span is invalid, and the one new warning is the
    "Invalid result" of this entry with that span. *)
Theorem walk_one_outcome (text : pystr) (index : Z) (entry : node)
    (st st' : mapper_state) (o : option Result) :
  walk_one text index entry st = Done o st' →
  ((node_tag entry ∉ types) ∧ o = None
   ∧ st' = mkState (results st) (warnings st ++ [UnknownType (node_tag entry)]))
  ∨ (node_tag entry ∈ types
     ∧ ∃ s e x st1 below,
         walk_fn text (walk_one text) index entry st = Done (s, e, x) st1
         ∧ results st1 = results st ++ below
         ∧ match o with
           | Some r =>
               res_type r = node_tag entry
               ∧ results st' = results st ++ below ++ [r]
               ∧ warnings st' = warnings st1
           | None =>
               results st' = results st ++ below
               ∧ warnings st'
                 = warnings st1 ++ [InvalidResult (mkResult (node_tag entry) s e x)]
               ∧ (s < 0 ∨ e < 0 ∨ e <= s)
           end).
Proof.
  rewrite walk_one_unfold. unfold walk_one_body.
  destruct (bool_decide (node_tag entry ∈ types)) eqn:Ht; cbn [negb].
  - apply bool_decide_eq_true in Ht.
    intros H. apply bind_Done in H as ([[s e] x] & st1 & Hfn & H). right.
    split; [done|].
    destruct (walk_fn_appends_only text index entry st _ st1 Hfn) as (below & Hb & _).
    exists s, e, x, st1, below. split; [done|]. split; [done|].
    destruct o as [r|].
    + apply save_Some in H as (Hty & Hres & Hw & _). split; [done|].
      split; [|done]. by rewrite Hres, Hb, app_assoc.
    + pose proof H as H'. apply save_None_warns in H as ->.
      cbn [results warnings]. split; [done|]. split; [done|].
      unfold save in H'.
      destruct ((s <? 0) || (e <? 0) || (e <=? s)) eqn:E.
      * apply orb_true_iff in E as [E|E]; [apply orb_true_iff in E as [E|E]|]; lia.
      * apply bind_Done in H' as ([s' e'] & ? & _ & H').
        apply bind_Done in H' as ([] & ? & _ & H'). discriminate.
  - apply bool_decide_eq_false in Ht.
    intros H. apply bind_Done in H as ([] & st1 & Hw & H).
    unfold warn in Hw. injection Hw as <-.
    unfold mret, M_ret in H. injection H as <- <-. by left.
Qed.

Lemma walk_one_outcome_witness :
  let text := str "Hello **world**!" in
  let entry := Strong [Str (str "world")] in
  let r := mkResult "Strong" 6 15
             {[ "content_start"%string := VInt 8; "content_end"%string := VInt 13 ]} in
  let st := mkState [] [] in
  let st' := mkState [mkResult "Str" 8 13 ∅; r] [] in
  ((node_tag entry ∉ types) ∧ Some r = None
   ∧ st' = mkState (results st) (warnings st ++ [UnknownType (node_tag entry)]))
  ∨ (node_tag entry ∈ types
     ∧ ∃ s e x st1 below,
         walk_fn text (walk_one text) 6 entry st = Done (s, e, x) st1
         ∧ results st1 = results st ++ below
         ∧ res_type r = node_tag entry
         ∧ results st' = results st ++ below ++ [r]
         ∧ warnings st' = warnings st1).
Proof.
  intros text entry r st st'.
  apply (walk_one_outcome text 6 entry st st' (Some r)).
  vm_compute. reflexivity.
Defined.

(** ** Horizontal rules *)

Lemma get_line_member (text : pystr) (index k : Z) :
  (__get_line text index).1 <= k <= (__get_line text index).2 →
  __get_line text k = __get_line text index.
Proof.
  intros Hk.
  destruct (get_line_bounds text index) as (H1 & H2 & H3 & H4 & _ & H6).
  apply (is_line_of_unique text k).
  - apply get_line_spec. lia.
  - unfold is_line_of. split; [lia|]. split; [lia|]. done.
Qed.

(** X14. A [HorizontalRule] is recorded as the line of the first visible
    character at or after the cursor: when the text from a cursor
    [index >= 0] up to a position [q] is whitespace and [text[q]] is not,
    [walk_one] raises nothing and emits no warning; it appends and returns
    the result that spans the whole line of [q], and the extras hold, as
    [content_start], [content_end], [s] and [e], the bounds of that line
    with the whitespace at its two ends cut off. *)
Theorem horizontal_rule_recorded (text : pystr) (index q c : Z) (st : mapper_state) :
  0 <= index <= q → getitem text q = Some c → isspace c = false →
  all_space text index q →
  ∃ s e,
    let r := mkResult "HorizontalRule" (__get_line text q).1 (__get_line text q).2
               (<["s"%string := VInt s]>
                  (<["e"%string := VInt e]>
                     {[ "content_start"%string := VInt s;
                        "content_end"%string := VInt e ]})) in
    walk_one text index HorizontalRule st
    = Done (Some r) (mkState (results st ++ [r]) (warnings st))
    ∧ (__get_line text q).1 <= s ∧ s <= q ∧ q < e ∧ e <= (__get_line text q).2
    ∧ all_space text (__get_line text q).1 s
    ∧ all_space text e (__get_line text q).2
    ∧ (∃ c', getitem text s = Some c' ∧ isspace c' = false)
    ∧ (∃ c', getitem text (e - 1) = Some c' ∧ isspace c' = false).
Proof.
  intros [Hi Hiq] Hq Hc Hsp.
  pose proof (getitem_Some_range _ _ _ Hq) as Hr.
  destruct (get_line_spec text q ltac:(lia)) as (A & B & C & D & N).
  assert (q < (__get_line text q).2) as Hlt.
  { destruct D as [D|D]; [lia|].
    destruct (Z.eq_dec q (__get_line text q).2) as [Heq|]; [|lia].
    rewrite <- Heq, Hq in D. injection D as ->. by vm_compute in Hc. }
  destruct (scan_forward_reach text isspace q c Hq Hc (Z.to_nat (q - index)) index
              ltac:(lia) ltac:(lia)) as (j & Hj & Hjb & _).
  assert (j = q) as ->.
  { destruct (Z.eq_dec j q) as [|Hne]; [done|]. exfalso.
    apply scan_always_stops in Hj as (c' & Hc' & Hp'). rewrite Z.add_0_r in Hc'.
    destruct (Hsp j ltac:(lia)) as (c'' & Hg & Hs). congruence. }
  destruct (scan_forward_reach text isspace q c Hq Hc
              (Z.to_nat (q - (__get_line text q).1)) (__get_line text q).1
              ltac:(lia) ltac:(lia)) as (s & Hs & Hsb & Hsa).
  destruct (scan_backward_reach text isspace q c Hq Hc
              (Z.to_nat ((__get_line text q).2 - 1 - q)) (__get_line text q).2
              ltac:(lia) ltac:(lia) ltac:(lia)) as (e & He & Heb & Hea).
  exists s, e. cbv zeta.
  split; [|split; [lia|split; [lia|split; [lia|split; [lia|split; [done|split; [done|]]]]]]].
  - assert (walk_horizontal_rule text index
            = Some (s, e, {[ "content_start"%string := VInt s;
                             "content_end"%string := VInt e ]})) as Hw.
    { unfold walk_horizontal_rule, skip_spaces_forward, skip_spaces_backward.
      rewrite Hj. cbn [mbind option_bind].
      destruct (__get_line text q) as [ls le]. cbn [fst snd] in Hs, He.
      rewrite Hs. cbn [mbind option_bind]. by rewrite He. }
    assert ("HorizontalRule"%string ∉ non_spaced_types) as Hns
      by (apply (bool_decide_unpack _); by vm_compute).
    assert ("HorizontalRule"%string ∈ paragraph_types) as Hpar
      by (apply (bool_decide_unpack _); by vm_compute).
    assert ("HorizontalRule"%string ∈ types) as Hty
      by (apply (bool_decide_unpack _); by vm_compute).
    rewrite walk_one_unfold. unfold walk_one_body. cbn [node_tag walk_fn].
    rewrite (bool_decide_eq_true_2 _ Hty). cbn [negb].
    unfold mbind at 1, M_bind at 1. rewrite Hw. cbn [lift]. unfold save.
    destruct ((s <? 0) || (e <? 0) || (e <=? s)) eqn:E.
    { apply orb_true_iff in E as [E|E]; [apply orb_true_iff in E as [E|E]|]; lia. }
    rewrite (bool_decide_eq_false_2 _ Hns), (bool_decide_eq_true_2 _ Hpar).
    cbv [mbind M_bind mret M_ret append_result].
    rewrite (get_line_member text q s) by lia.
    rewrite (get_line_member text q e) by lia. done.
  - split.
    + apply scan_always_stops in Hs as (c' & Hc' & Hp'). rewrite Z.add_0_r in Hc'. eauto.
    + apply scan_always_stops in He as (c' & Hc' & Hp').
      replace (e + -1) with (e - 1) in Hc' by lia. eauto.
Qed.

Lemma horizontal_rule_recorded_witness :
  ∃ s e,
    walk_one (str "a" ++ [NL] ++ str "  ***  " ++ [NL] ++ str "b") 1 HorizontalRule
      (mkState [] [])
    = Done (Some (mkResult "HorizontalRule" 2 9
                    (<["s"%string := VInt s]>
                       (<["e"%string := VInt e]>
                          {[ "content_start"%string := VInt s;
                             "content_end"%string := VInt e ]}))))
        (mkState [mkResult "HorizontalRule" 2 9
                    (<["s"%string := VInt s]>
                       (<["e"%string := VInt e]>
                          {[ "content_start"%string := VInt s;
                             "content_end"%string := VInt e ]}))] []).
Proof.
  destruct (horizontal_rule_recorded
              (str "a" ++ [NL] ++ str "  ***  " ++ [NL] ++ str "b") 1 4 42 (mkState [] []))
    as (s & e & H & _).
  - lia.
  - reflexivity.
  - reflexivity.
  - intros k Hk. assert (k = 1 ∨ k = 2 ∨ k = 3) as [-> | [-> | ->]] by lia;
      eexists; split; reflexivity.
  - exists s, e. exact H.
Defined.

(** ** Delimited inlines *)

Lemma scan_loop_backward_le text guard p off fuel j j' :
  scan_loop text fuel guard p off (-1) j = Some j' → j' <= j.
Proof.
  revert j. induction fuel as [|fuel IH]; intros j; simpl; [discriminate|].
  destruct (guard j); [|intros [= <-]; lia].
  destruct (getitem text (j + off)) as [c|]; [|discriminate]. simpl.
  destruct (p c); [|intros [= <-]; lia].
  intros H. apply IH in H. lia.
Qed.

(** What [save] records of a type that is not widened: the extras as
    they are, and a span inside the valid span it was given. *)
Lemma save_inside text t start end_ extras st r st' :
  save text t start end_ extras st = Done (Some r) st' →
  t ∉ paragraph_types →
  res_extras r = extras
  ∧ 0 <= start ∧ start < end_ ∧ start <= res_start r ∧ res_end r <= end_.
Proof.
  intros H Hnp. unfold save in H.
  destruct ((start <? 0) || (end_ <? 0) || (end_ <=? start)) eqn:E.
  { apply bind_Done in H as (? & ? & _ & H). discriminate. }
  apply orb_false_iff in E as [E E3]. apply orb_false_iff in E as [E1 E2].
  apply bind_Done in H as ([s e] & st1 & Htrim & H).
  apply bind_Done in H as ([] & st2 & _ & H).
  injection H as Hr _.
  rewrite (bool_decide_eq_false_2 _ Hnp) in Hr. subst r.
  cbn [res_extras res_start res_end]. split; [done|].
  destruct (bool_decide (t ∈ non_spaced_types)).
  - apply bind_Done in Htrim as (s' & st3 & Hf & Htrim).
    apply bind_Done in Htrim as (e' & st4 & Hb & Htrim).
    apply lift_Done in Hf as [Hf _]. apply lift_Done in Hb as [Hb _].
    injection Htrim as -> -> _.
    apply scan_loop_forward_ge in Hf. apply scan_loop_backward_le in Hb. lia.
  - injection Htrim as <- <- _. lia.
Qed.

Lemma walk_multiple_padded text rec index entries padding st s e x st' :
  walk_multiple text rec index entries padding st = Done (s, e, x) st' →
  padding ≠ 0 →
  x = {[ "content_start"%string := VInt (s + padding);
         "content_end"%string := VInt (e - padding) ]}.
Proof.
  intros H Hp. unfold walk_multiple in H.
  apply bind_Done in H as ([cs ce] & st1 & _ & H).
  destruct (padding =? 0) eqn:E; [lia|].
  injection H as <- <- <- _. f_equal; f_equal; f_equal; lia.
Qed.

(** X15. The span recorded for a delimited inline never reaches beyond
    its delimiters. For an [Emph], [Strong], [Strikeout], [Superscript],
    [Subscript], [Quoted], [Code] or [Math] that [walk_one] records, the
    extras hold the bounds [content_start] and [content_end] of what is
    inside the delimiters, and with [p] the width that the dispatch table
    gives to the delimiters of the type, the recorded span lies in
    [[content_start - p, content_end + p]], an interval that starts at a
    non-negative offset and is not empty. *)
Theorem delimited_content_bounds (text : pystr) (index : Z) (entry : node)
    (p : Z) (st st' : mapper_state) (r : Result) :
  delimiter_width entry = Some p →
  walk_one text index entry st = Done (Some r) st' →
  ∃ cs ce,
    res_extras r !! "content_start"%string = Some (VInt cs)
    ∧ res_extras r !! "content_end"%string = Some (VInt ce)
    ∧ 0 <= cs - p ∧ cs - p < ce + p
    ∧ cs - p <= res_start r ∧ res_end r <= ce + p.
Proof.
  intros Hp H. rewrite walk_one_unfold in H. unfold walk_one_body in H.
  assert (node_tag entry ∈ types ∧ node_tag entry ∉ paragraph_types) as [Hty Hnp].
  { destruct entry; try discriminate Hp;
      (split; apply (bool_decide_unpack _); by vm_compute). }
  rewrite (bool_decide_eq_true_2 _ Hty) in H. cbn [negb] in H.
  apply bind_Done in H as ([[s e] x] & st1 & Hfn & H).
  apply save_inside in H as (Hx & H0 & Hlt & Hs & He); [|done].
  assert (x = {[ "content_start"%string := VInt (s + p);
                 "content_end"%string := VInt (e - p) ]}) as ->.
  { destruct entry; try discriminate Hp; cbn [walk_fn] in Hfn;
      injection Hp as <-;
      try (by apply walk_multiple_padded in Hfn).
    - unfold walk_code in Hfn. destruct (find_tokens _ _ _ _ _) as [cs ce].
      injection Hfn as <- <- <- _. f_equal; f_equal; f_equal; lia.
    - unfold walk_math in Hfn. destruct (__find _ _ _ _) as [cs ce].
      injection Hfn as <- <- <- _. f_equal; f_equal; f_equal; lia. }
  exists (s + p), (e - p). rewrite Hx.
  rewrite lookup_insert_eq. rewrite lookup_insert_ne by done. rewrite lookup_singleton_eq.
  split; [done|]. split; [done|]. lia.
Qed.

Lemma delimited_content_bounds_witness :
  let r := mkResult "Strong" 6 15
             {[ "content_start"%string := VInt 8; "content_end"%string := VInt 13 ]} in
  ∃ cs ce,
    res_extras r !! "content_start"%string = Some (VInt cs)
    ∧ res_extras r !! "content_end"%string = Some (VInt ce)
    ∧ 0 <= cs - 2 ∧ cs - 2 < ce + 2 ∧ cs - 2 <= res_start r ∧ res_end r <= ce + 2.
Proof.
  intros r.
  apply (delimited_content_bounds (str "Hello **world**!") 6 (Strong [Str (str "world")]) 2
           (mkState [] []) (mkState [mkResult "Str" 8 13 ∅; r] []) r).
  - reflexivity.
  - vm_compute. reflexivity.
Defined.

(** ** Citations and code words *)

Lemma find_located (text sub : pystr) (start end_ : option Z) :
  located text sub (__find text sub start end_).
Proof.
  unfold located, __find.
  pose proof (len_nonneg text) as Hn. pose proof (len_nonneg sub) as Hm.
  pose proof (adjust_start_range (len text) (default 0 start) Hn) as Hlo.
  pose proof (adjust_end_range (len text) (default (len text) end_) Hn) as Hhi.
  pose proof (py_find_spec text sub start end_) as Hf. cbv zeta in Hf.
  destruct Hf as [[-> _]|(H1 & H2 & Hocc & _)]; [by left|].
  destruct (0 <=? py_find text sub start end_) eqn:E; [|lia].
  right. cbn [fst snd]. split; [lia|]. split; [done|]. split; [lia|].
  apply occurs_at_slice; [lia|lia|done].
Qed.

Lemma walk_cite_loop_spans text cs :
  ∀ i start end_ cstart cap acc s e cap' spans,
    walk_cite_loop text cs i start end_ cstart cap acc = (s, e, cap', spans) →
    ∃ new, spans = acc ++ new
           ∧ Forall2 (λ c sp, located text (64 :: citationId c) sp) cs new.
Proof.
  induction cs as [|c cs IH]; intros i start end_ cstart cap acc s e cap' spans H.
  - injection H as _ _ _ <-. exists []. split; [by rewrite app_nil_r|constructor].
  - cbn [walk_cite_loop] in H.
    pose proof (find_located text (64 :: citationId c) (Some cstart) None) as Hloc.
    destruct (__find text (64 :: citationId c) (Some cstart) None) as [a b].
    apply IH in H as (new & -> & Hall).
    exists ((a, b) :: new). split; [by rewrite <- app_assoc|]. by constructor.
Qed.

(** What [save] does to the extras: it adds the keys ["s"] and ["e"] to
    those of a paragraph type, and changes nothing else. *)
Lemma save_extras_kept text t start end_ extras st r st' (k : string) :
  save text t start end_ extras st = Done (Some r) st' →
  k ≠ "s"%string → k ≠ "e"%string →
  res_extras r !! k = extras !! k.
Proof.
  intros H Hs He. unfold save in H.
  destruct ((start <? 0) || (end_ <? 0) || (end_ <=? start)).
  { apply bind_Done in H as (? & ? & _ & H). discriminate. }
  apply bind_Done in H as ([s e] & st1 & _ & H).
  apply bind_Done in H as ([] & st2 & _ & H).
  injection H as <- _.
  destruct (bool_decide (t ∈ paragraph_types)); cbn [res_extras]; [|done].
  by rewrite !lookup_insert_ne.
Qed.

(** X16. The extras of a recorded [Cite] hold one span for each of its
    citations, in their order, and the span of a citation is either
    [(-1, -1)] or a place of the text that reads ["@"] followed by the
    identifier of the citation. *)
Theorem cite_spans_located (text : pystr) (index : Z) (citations : list citation)
    (bibliography_entries : list node) (st st' : mapper_state) (r : Result) :
  walk_one text index (Cite citations bibliography_entries) st = Done (Some r) st' →
  ∃ spans,
    res_extras r !! "citations"%string = Some (VSpans spans)
    ∧ Forall2 (λ c span, located text (64 :: citationId c) span) citations spans.
Proof.
  intros H. rewrite walk_one_unfold in H. unfold walk_one_body in H.
  assert ("Cite"%string ∈ types) as Hty by (apply (bool_decide_unpack _); by vm_compute).
  cbn [node_tag] in H. rewrite (bool_decide_eq_true_2 _ Hty) in H. cbn [negb] in H.
  apply bind_Done in H as ([[s e] x] & st1 & Hfn & H).
  apply (save_extras_kept _ _ _ _ _ _ _ _ "citations"%string) in H; [|done|done].
  rewrite H. cbn [walk_fn] in Hfn. apply lift_Done in Hfn as [Hfn _].
  unfold walk_cite in Hfn.
  destruct (walk_cite_loop text citations 0 index index index true [])
    as [[[s0 e0] cap] spans] eqn:Hloop.
  apply walk_cite_loop_spans in Hloop as (new & -> & Hall).
  apply bind_Some in Hfn as ([s1 e1] & _ & Hfn). injection Hfn as _ _ <-.
  exists new. split; [|done]. by rewrite lookup_singleton_eq.
Qed.

Lemma cite_spans_located_witness :
  let cs := [mkCitation (str "doe99") "NormalCitation";
             mkCitation (str "roe") "NormalCitation"] in
  let r := mkResult "Cite" 3 17 {[ "citations"%string := VSpans [(4, 10); (12, 16)] ]} in
  ∃ spans,
    res_extras r !! "citations"%string = Some (VSpans spans)
    ∧ Forall2 (λ c span, located (str "as [@doe99; @roe] say") (64 :: citationId c) span)
        cs spans.
Proof.
  intros cs r.
  apply (cite_spans_located (str "as [@doe99; @roe] say") 3 cs []
           (mkState [] []) (mkState [r] []) r).
  vm_compute. reflexivity.
Defined.

(** The start that [find_tokens] returns is the one it was given, once
    the first token is behind. *)
Lemma find_tokens_start text toks :
  ∀ i start end_, 0 < i → (find_tokens text toks i start end_).1 = start.
Proof.
  induction toks as [|w toks IH]; intros i start end_ Hi; [done|].
  cbn [find_tokens]. destruct (__find text w (Some end_) None) as [s e].
  destruct (i =? 0) eqn:E; [lia|]. apply IH. lia.
Qed.

Lemma find_tokens_first text w toks start end_ :
  located text w ((find_tokens text (w :: toks) 0 start end_).1,
                  (find_tokens text (w :: toks) 0 start end_).1 + len w)
  ∨ (find_tokens text (w :: toks) 0 start end_).1 = -1.
Proof.
  cbn [find_tokens].
  pose proof (find_located text w (Some end_) None) as Hloc.
  destruct (__find text w (Some end_) None) as [s e].
  rewrite find_tokens_start by lia. change (0 =? 0) with true. cbv iota.
  destruct Hloc as [[= -> ->]|(H0 & He & Hle & Hs)]; [by right|left].
  cbn [fst snd] in *. right. cbn [fst snd]. rewrite <- He. done.
Qed.

Lemma find_tokens_last text toks :
  ∀ i start end_ w, last toks = Some w →
    ∃ from, (find_tokens text toks i start end_).2 = (__find text w (Some from) None).2.
Proof.
  induction toks as [|w' toks IH]; intros i start end_ w Hl; [done|].
  cbn [find_tokens]. destruct (__find text w' (Some end_) None) as [s e] eqn:Hf.
  destruct toks as [|w'' toks].
  - injection Hl as <-. exists end_. by rewrite Hf.
  - apply IH. by rewrite last_cons_cons in Hl.
Qed.

(** X17. The content bounds of a [Code] and of a [CodeBlock] come from
    its words: in the extras of the recorded result, [content_start] is
    [-1] or the start of a place of the text that reads the first word of
    the string, and [content_end] is [-1] or the end of a place that reads
    its last word. For a recorded [Code] neither is [-1]. *)
Theorem code_words_located (text : pystr) (index : Z) (entry : node) (a : attr)
    (string_ first last_ : pystr) (st st' : mapper_state) (r : Result) :
  entry = Code a string_ ∨ entry = CodeBlock a string_ →
  head (split string_) = Some first → last (split string_) = Some last_ →
  walk_one text index entry st = Done (Some r) st' →
  ∃ cs ce,
    res_extras r !! "content_start"%string = Some (VInt cs)
    ∧ res_extras r !! "content_end"%string = Some (VInt ce)
    ∧ (cs = -1 ∨ 0 <= cs ∧ slice text (Some cs) (Some (cs + len first)) = first)
    ∧ (ce = -1 ∨ ce <= len text
                 ∧ slice text (Some (ce - len last_)) (Some ce) = last_)
    ∧ (entry = Code a string_ → cs ≠ -1 ∧ ce ≠ -1).
Proof.
  intros Hentry Hfirst Hlast H.
  rewrite walk_one_unfold in H. unfold walk_one_body in H.
  assert (node_tag entry ∈ types) as Hty
    by (destruct Hentry as [-> | ->]; apply (bool_decide_unpack _); by vm_compute).
  rewrite (bool_decide_eq_true_2 _ Hty) in H. cbn [negb] in H.
  apply bind_Done in H as ([[s e] x] & st1 & Hfn & H).
  pose proof (save_extras_kept _ _ _ _ _ _ _ _ "content_start"%string H
                ltac:(done) ltac:(done)) as Hcs.
  pose proof (save_extras_kept _ _ _ _ _ _ _ _ "content_end"%string H
                ltac:(done) ltac:(done)) as Hce.
  rewrite Hcs, Hce. clear Hcs Hce.
  destruct (split string_) as [|w toks] eqn:Hsplit; [done|].
  injection Hfirst as ->.
  pose proof (find_tokens_first text first toks index index) as Hloc1.
  destruct (find_tokens_last text (first :: toks) 0 index index last_ Hlast)
    as (from & Hloc2).
  pose proof (find_located text last_ (Some from) None) as Hl2.
  destruct (find_tokens text (first :: toks) 0 index index) as [cs ce] eqn:Hft.
  cbn [fst snd] in Hloc1, Hloc2.
  assert (cs = -1 ∨ 0 <= cs ∧ slice text (Some cs) (Some (cs + len first)) = first) as Hcs.
  { destruct Hloc1 as [[[= -> _]|(? & _ & _ & ?)]|?]; auto. }
  assert (ce = -1 ∨ ce <= len text
                    ∧ slice text (Some (ce - len last_)) (Some ce) = last_) as Hce.
  { rewrite Hloc2.
    destruct Hl2 as [->|(? & He & ? & Hs)]; [by left|right].
    split; [done|]. rewrite He at 1. by replace (_ + _ - _) with (__find text last_ (Some from) None).1 by lia. }
  exists cs, ce.
  destruct Hentry as [-> | ->]; cbn [walk_fn] in Hfn.
  - unfold walk_code in Hfn. rewrite Hsplit, Hft in Hfn. injection Hfn as <- <- <- _.
    rewrite lookup_insert_eq. rewrite lookup_insert_ne by done. rewrite lookup_singleton_eq.
    split; [done|]. split; [done|]. split; [done|]. split; [done|]. intros _.
    apply save_inside in H as (_ & ? & ? & _);
      [lia|apply (bool_decide_unpack _); by vm_compute].
  - unfold walk_code_block in Hfn. rewrite Hsplit, Hft in Hfn.
    destruct (__get_line_before text cs) as [lbs lbe].
    destruct (__get_line_after text ce) as [las lae].
    destruct (_ && _); injection Hfn as <- <- <- _;
      (rewrite lookup_insert_eq; rewrite lookup_insert_ne by done; rewrite lookup_singleton_eq;
       split; [done|]; split; [done|]; split; [done|]; split; [done|]; discriminate).
Qed.

Lemma code_words_located_witness :
  let text := str "x `a  b` y" in
  let entry := Code (mkAttr [] [] []) (str "a b") in
  let r := mkResult "Code" 2 8
             {[ "content_start"%string := VInt 3; "content_end"%string := VInt 7 ]} in
  ∃ cs ce,
    res_extras r !! "content_start"%string = Some (VInt cs)
    ∧ res_extras r !! "content_end"%string = Some (VInt ce)
    ∧ (cs = -1 ∨ 0 <= cs ∧ slice text (Some cs) (Some (cs + len (str "a"))) = str "a")
    ∧ (ce = -1 ∨ ce <= len text
                 ∧ slice text (Some (ce - len (str "b"))) (Some ce) = str "b")
    ∧ (entry = Code (mkAttr [] [] []) (str "a b") → cs ≠ -1 ∧ ce ≠ -1).
Proof.
  intros text entry r.
  apply (code_words_located text 2 entry (mkAttr [] [] []) (str "a b") (str "a") (str "b")
           (mkState [] []) (mkState [r] []) r).
  - by left.
  - reflexivity.
  - reflexivity.
  - vm_compute. reflexivity.
Defined.

(** ** Entries that are not in the text *)

Lemma py_find_absent (t sub : pystr) (start end_ : option Z) :
  py_find t sub None None = -1 → py_find t sub start end_ = -1.
Proof.
  intros Habs.
  pose proof (len_nonneg t) as Hn.
  pose proof (adjust_start_range (len t) (default 0 start) Hn) as Hlo.
  pose proof (adjust_end_range (len t) (default (len t) end_) Hn) as Hhi.
  pose proof (py_find_spec t sub None None) as H0. cbv zeta in H0.
  rewrite Habs in H0. destruct H0 as [[_ Hno]|(H1 & _)].
  - pose proof (py_find_spec t sub start end_) as H. cbv zeta in H.
    destruct H as [[H _]|(H1 & H2 & Hocc & _)]; [done|].
    rewrite Hno in Hocc; [done| |].
    + simpl. unfold adjust_start. destruct (0 <? 0) eqn:?; lia.
    + simpl. unfold adjust_end. rewrite Z.ltb_irrefl.
      destruct (len t <? 0) eqn:?; lia.
  - simpl in H1. unfold adjust_start in H1. destruct (0 <? 0) eqn:?; lia.
Qed.

Lemma find_absent (text sub : pystr) (start end_ : option Z) :
  py_find text sub None None = -1 → __find text sub start end_ = (-1, -1).
Proof.
  intros H. unfold __find. by rewrite (py_find_absent _ _ start end_ H).
Qed.

Lemma save_invalid text t start end_ extras st :
  start < 0 ∨ end_ < 0 ∨ end_ <= start →
  save text t start end_ extras st
  = Done None (mkState (results st)
                 (warnings st ++ [InvalidResult (mkResult t start end_ extras)])).
Proof.
  intros H. unfold save.
  destruct ((start <? 0) || (end_ <? 0) || (end_ <=? start)) eqn:E; [done|].
  apply orb_false_iff in E as [E E3]. apply orb_false_iff in E as [E1 E2]. lia.
Qed.

(** X18. A [Math] whose string is nowhere in the text, and a [Code]
    whose last word is nowhere in the text, is never recorded: at every
    cursor [walk_one] raises nothing, returns [None], leaves the result
    list as it is and emits one "Invalid result" warning for the entry. *)
Theorem absent_entry_dropped (text : pystr) (index : Z) (entry : node)
    (st : mapper_state) :
  (∃ mt string_, entry = Math mt string_ ∧ py_find text string_ None None = -1)
  ∨ (∃ a string_ word, entry = Code a string_ ∧ last (split string_) = Some word
                       ∧ py_find text word None None = -1) →
  ∃ start end_ extras,
    walk_one text index entry st
    = Done None
        (mkState (results st)
           (warnings st
            ++ [InvalidResult (mkResult (node_tag entry) start end_ extras)])).
Proof.
  intros [(mt & s & -> & Habs)|(a & s & w & -> & Hlast & Habs)];
    rewrite walk_one_unfold; unfold walk_one_body; cbn [node_tag walk_fn].
  - assert ("Math"%string ∈ types) as Hty by (apply (bool_decide_unpack _); by vm_compute).
    rewrite (bool_decide_eq_true_2 _ Hty). cbn [negb].
    unfold walk_math. rewrite (find_absent _ _ _ _ Habs).
    do 3 eexists. unfold mbind at 1, M_bind at 1, mret at 1, M_ret at 1.
    apply save_invalid. left. pose proof (len_nonneg (math_delims mt)). lia.
  - assert ("Code"%string ∈ types) as Hty by (apply (bool_decide_unpack _); by vm_compute).
    rewrite (bool_decide_eq_true_2 _ Hty). cbn [negb].
    unfold walk_code.
    destruct (find_tokens_last text (split s) 0 index index w Hlast) as (from & He).
    rewrite (find_absent _ _ _ _ Habs) in He.
    destruct (find_tokens text (split s) 0 index index) as [cs ce].
    cbn [snd] in He. subst ce.
    do 3 eexists. unfold mbind at 1, M_bind at 1, mret at 1, M_ret at 1.
    apply save_invalid. lia.
Qed.

Lemma absent_entry_dropped_witness :
  ∃ start end_ extras,
    walk_one (str "price: $x$") 7 (Math InlineMath (str "y")) (mkState [] [])
    = Done None (mkState [] [InvalidResult (mkResult "Math" start end_ extras)]).
Proof.
  apply (absent_entry_dropped (str "price: $x$") 7 (Math InlineMath (str "y"))
           (mkState [] [])).
  left. exists InlineMath, (str "y"). split; reflexivity.
Defined.

(** ** Notes that are neither inline nor footnotes *)

(** X19. A [Note] at a cursor where the rest of the text,
    [text[index:]], begins with neither ["^["] nor ["[^"] is never
    recorded, and the entries inside it are not walked: [walk_one] returns
    [None], leaves the result list as it is and emits one "Invalid result"
    warning, for the empty span [(index, index)] of a footnote. *)
Theorem stray_note_dropped (text : pystr) (index : Z) (entries : list node)
    (st : mapper_state) :
  take 2 (slice text (Some index) None) ≠ str "^[" →
  take 2 (slice text (Some index) None) ≠ str "[^" →
  walk_one text index (Note entries) st
  = Done None
      (mkState (results st)
         (warnings st
          ++ [InvalidResult
                (mkResult "Note" index index
                   {[ "type"%string := VStr (str "footnote") ]})])).
Proof.
  intros Hinline Hfoot.
  rewrite walk_one_unfold. unfold walk_one_body. cbn [node_tag walk_fn].
  assert ("Note"%string ∈ types) as Hty by (apply (bool_decide_unpack _); by vm_compute).
  rewrite (bool_decide_eq_true_2 _ Hty). cbn [negb].
  unfold walk_note.
  set (rest := slice text (Some index) None) in *.
  assert (startswith rest (str "^[") 0 = false) as ->.
  { unfold startswith. destruct (_ <? _); [done|].
    unfold occurs_at, adjust_start. destruct (0 <? 0) eqn:?; [lia|].
    apply bool_decide_eq_false. by rewrite drop_0. }
  assert (footnote_identifier rest = None) as ->.
  { destruct rest as [|c1 [|c2 r]]; [done| |].
    - unfold footnote_identifier. destruct c1 as [|[]|]; try done.
      repeat (match goal with |- context [match ?p with _ => _ end] => destruct p end; try done).
    - unfold footnote_identifier.
      destruct (decide (c1 = 91)) as [->|H1]; [destruct (decide (c2 = 94)) as [->|H2]|].
      + by destruct Hfoot.
      + repeat (match goal with |- context [match ?p with _ => _ end] => destruct p end; try done).
      + repeat (match goal with |- context [match ?p with _ => _ end] => destruct p end; try done). }
  cbn [mbind option_bind]. unfold mbind at 1, M_bind at 1, mret at 1, M_ret at 1.
  apply save_invalid. lia.
Qed.

Lemma stray_note_dropped_witness :
  walk_one (str "word and more") 4 (Note [Para [Str (str "more")]]) (mkState [] [])
  = Done None
      (mkState []
         [InvalidResult
            (mkResult "Note" 4 4 {[ "type"%string := VStr (str "footnote") ]})]).
Proof.
  apply (stray_note_dropped (str "word and more") 4 [Para [Str (str "more")]]
           (mkState [] [])); vm_compute; discriminate.
Defined.
